(** * A shallow embedding of the UBI agent-based simulation

    The Python program under [ubi_agent_sim/] is embedded function by
    function.  Python [float]s are IEEE-754 binary64 values, so they are
    modelled by Rocq's primitive floats, which are the same format and
    evaluate bit for bit.  The Python [int]s that appear in the program
    (40, 0, 600, 60, 4, 100000, 150000, 200000) are all exactly
    representable in binary64 and every operation that mixes them with a
    float first promotes them, so they are written as floats as well.

    Exceptions are modelled by a small error monad, dictionaries by
    insertion-ordered association lists, and numpy's process-global random
    generator by an explicit generator state threaded through population
    construction. *)

From Stdlib Require Import ZArith QArith List Bool Lia Floats Permutation.
Import ListNotations.
Set Warnings "-inexact-float".

(* ================================================================= *)
(** ** Python primitives *)

Module Py.

(** The two exceptions the engine can raise. *)
Inductive exn : Type :=
| ZeroDivisionError
| KeyError (key : Z).

Inductive res (A : Type) : Type :=
| Ok (a : A)
| Raise (e : exn).
Arguments Ok {A} a.
Arguments Raise {A} e.

Definition bind {A B : Type} (m : res A) (k : A -> res B) : res B :=
  match m with
  | Ok a => k a
  | Raise e => Raise e
  end.

(** [for x in l: f x] where the body may raise: the results in order, or the
    first exception. *)
Fixpoint mapM {A B : Type} (f : A -> res B) (l : list A) : res (list B) :=
  match l with
  | [] => Ok []
  | x :: xs =>
      bind (f x) (fun y => bind (mapM f xs) (fun ys => Ok (y :: ys)))
  end.

(** [max(a, b)] keeps its first argument unless the second is strictly
    greater; [min(a, b)] unless the second is strictly smaller.  A NaN second
    argument therefore loses every comparison. *)
Definition max (a b : float) : float := if (a <? b)%float then b else a.
Definition min (a b : float) : float := if (b <? a)%float then b else a.

(** True division of Python floats raises on a zero divisor (of either
    sign) instead of producing an infinity or a NaN.  The operands of the
    one division in [Person.step] are Python numbers: [numpy.random.normal]
    called without a size returns a Python [float]. *)
Definition div (a b : float) : res float :=
  if (b =? 0)%float then Raise ZeroDivisionError else Ok (a / b)%float.

(** [sum(xs)]: a left fold that starts from the integer 0.  (CPython 3.12
    and later add floats with a compensated sum; for up to two terms, which
    is what the households of [run_sim] have, it returns the same float.) *)
Definition sum (xs : list float) : float :=
  fold_left PrimFloat.add xs 0%float.

(** [float(n)] for a non-negative int below 2^63 (exact below 2^53). *)
Definition of_nat (n : nat) : float :=
  PrimFloat.of_uint63 (Uint63.of_Z (Z.of_nat n)).

(** True division [a / b] of two non-negative ints: it raises on [b = 0]
    and otherwise returns the float nearest to the quotient, which for
    operands below 2^53 is the quotient of the two converted operands. *)
Definition truediv (a b : nat) : res float :=
  match b with
  | O => Raise ZeroDivisionError
  | S _ => Ok (of_nat a / of_nat b)%float
  end.

(** A [dict] with integer keys: an association list in insertion order,
    with at most one entry per key. *)
Definition dict (V : Type) : Type := list (Z * V).

Fixpoint get {V : Type} (d : dict V) (k : Z) : res V :=
  match d with
  | [] => Raise (KeyError k)
  | (k', v) :: d' => if Z.eqb k' k then Ok v else get d' k
  end.

(** [d[k] = v]: overwrite in place, or append a new entry at the end. *)
Fixpoint set {V : Type} (d : dict V) (k : Z) (v : V) : dict V :=
  match d with
  | [] => [(k, v)]
  | (k', v') :: d' =>
      if Z.eqb k' k then (k', v) :: d' else (k', v') :: set d' k v
  end.

Definition keys {V : Type} (d : dict V) : list Z := map fst d.
Definition values {V : Type} (d : dict V) : list V := map snd d.

(** [for v in d.values(): v.method()] for a method that mutates the object
    [v] in place: every value is replaced by its updated state, keys and
    order stay as they are. *)
Definition update_values {V : Type} (f : V -> res V) (d : dict V)
  : res (dict V) :=
  mapM (fun kv => bind (f (snd kv)) (fun v' => Ok (fst kv, v'))) d.

End Py.

Notation "x <- m ;; k" := (Py.bind m (fun x => k))
  (at level 61, m at next level, right associativity).
Abbreviation Ok := Py.Ok.
Abbreviation Raise := Py.Raise.

(* ================================================================= *)
(** ** config/policy.py *)

Module Policy.

Record t : Type := mk {
  ubi_amount : float;
  income_tax_rate : float
}.

(** [Policy()] with the dataclass defaults. *)
Definition default : t := mk 100000 0.2.

End Policy.

(* ================================================================= *)
(** ** models/person.py *)

Module Person.

Record t : Type := mk {
  id : Z;
  age : Z;
  hourly_wage : float;
  work_hours : float;
  saving : float;
  household_id : Z;
  happiness : float
}.

(** The [macro_state] argument is a dictionary that [step] never reads. *)
Definition macro_state : Type := Py.dict float.

(** The local variables of [step], in the order the code computes them. *)
Definition gap (policy : Policy.t) (basic_need : float) : float :=
  Py.max 0 (basic_need - Policy.ubi_amount policy).

Definition denominator (self : t) : float :=
  (hourly_wage self * 4 + 1e-6)%float.

Definition smoothed (self : t) (target_hours : float) : float :=
  (0.7 * work_hours self + 0.3 * target_hours)%float.

Definition step (policy : Policy.t) (ms : macro_state) (basic_need : float)
    (self : t) : Py.res t :=
  let gap := gap policy basic_need in
  target_hours <- Py.div gap (denominator self) ;;
  let work_hours' := Py.max 0 (Py.min 60 (smoothed self target_hours)) in
  let income_labor := (hourly_wage self * work_hours' * 4)%float in
  let income_total := (income_labor + Policy.ubi_amount policy)%float in
  let disposable_income :=
    (income_total * (1 - Policy.income_tax_rate policy))%float in
  let saving' := (saving self + disposable_income * 0.2)%float in
  let happiness' :=
    (5 + 0.00001 * income_total - 0.05 * Py.max 0 (work_hours' - 40))%float in
  Ok (mk (id self) (age self) (hourly_wage self) work_hours' saving'
         (household_id self) happiness').

End Person.

(* ================================================================= *)
(** ** models/household.py *)

Module Household.

Record t : Type := mk {
  id : Z;
  member_ids : list Z;
  income : float;
  poverty_line : float
}.

(** [Household(id=hid, member_ids=member_ids)]: the other two fields take
    their dataclass defaults. *)
Definition new (hid : Z) (members : list Z) : t := mk hid members 0 200000.

Definition labor_income (p : Person.t) : float :=
  (Person.hourly_wage p * Person.work_hours p * 4)%float.

(** The generator inside [sum(...)] looks every member up in [persons]; the
    first missing id raises [KeyError]. *)
Definition aggregate (persons : Py.dict Person.t) (self : t) : Py.res t :=
  terms <- Py.mapM (fun pid => p <- Py.get persons pid ;; Ok (labor_income p))
                   (member_ids self) ;;
  Ok (mk (id self) (member_ids self) (Py.sum terms) (poverty_line self)).

Definition is_poor (self : t) : bool :=
  (income self <? poverty_line self)%float.

End Household.

(* ================================================================= *)
(** ** numpy.random *)

(** The two samplers the program calls, over an explicit generator state
    [G] (numpy keeps this state in a process-global variable).  Each call
    returns a sample and the advanced state. *)
Class RandomState (G : Type) : Type := {
  randint : Z -> Z -> G -> Z * G;
  normal : float -> float -> G -> float * G
}.

(* ================================================================= *)
(** ** sim/environment.py *)

Module Environment.

Record t : Type := mk {
  policy : Policy.t;
  persons : Py.dict Person.t;
  households : Py.dict Household.t
}.

Section Init.
Context {G : Type} {RS : RandomState G}.

(** The body of the inner loop up to the wage correction: a person with
    freshly drawn age and wage, the age being drawn first. *)
Definition new_person (pid hid : Z) (g : G) : Person.t * G :=
  let (a, g1) := randint 20 60 g in
  let (w, g2) := normal 1500 500 g1 in
  let w' := if (w <? 600)%float then 600%float else w in
  (Person.mk pid a w' 40 0 hid 5, g2).

(** [for _ in range(persons_per_household)]: the loop state is the persons
    dictionary, the member list of the household under construction, the
    next free person id and the generator. *)
Fixpoint add_members (n : nat) (hid : Z)
    (st : Py.dict Person.t * list Z * Z * G)
  : Py.dict Person.t * list Z * Z * G :=
  match n with
  | O => st
  | S n' =>
      let '(persons, member_ids, pid, g) := st in
      let (p, g') := new_person pid hid g in
      add_members n' hid
        (Py.set persons pid p, member_ids ++ [pid], (pid + 1)%Z, g')
  end.

(** [for hid in range(n_households)], counting [hid] upwards. *)
Fixpoint add_households (n : nat) (persons_per_household : nat) (hid : Z)
    (st : Py.dict Person.t * Py.dict Household.t * Z * G)
  : Py.dict Person.t * Py.dict Household.t * Z * G :=
  match n with
  | O => st
  | S n' =>
      let '(persons, households, pid, g) := st in
      let '(persons', member_ids, pid', g') :=
        add_members persons_per_household hid (persons, [], pid, g) in
      add_households n' persons_per_household (hid + 1)%Z
        (persons', Py.set households hid (Household.new hid member_ids),
         pid', g')
  end.

(** [Environment(n_households, persons_per_household)]; [range] of a
    negative int is empty. *)
Definition init (n_households persons_per_household : Z) (g : G) : t * G :=
  let '(persons, households, _, g') :=
    add_households (Z.to_nat n_households) (Z.to_nat persons_per_household)
      0%Z ([], [], 0%Z, g) in
  (mk Policy.default persons households, g').

End Init.

Definition basic_need : float := 150000.

(** One month: every person is updated, then every household aggregates
    from the updated persons.  An exception leaves the loop at once and
    propagates; the environment it leaves half updated belongs to the
    [run_sim] call that is being abandoned and is not part of the result. *)
Definition step (self : t) : Py.res t :=
  let macro_state : Person.macro_state := [] in
  persons' <- Py.update_values
                (Person.step (policy self) macro_state basic_need)
                (persons self) ;;
  households' <- Py.update_values (Household.aggregate persons')
                   (households self) ;;
  Ok (mk (policy self) persons' households').

End Environment.

(* ================================================================= *)
(** ** sim/runner.py *)

Definition poor_count (env : Environment.t) : nat :=
  length (filter Household.is_poor (Py.values (Environment.households env))).

Definition poverty_rate (env : Environment.t) : Py.res float :=
  Py.truediv (poor_count env) (length (Environment.households env)).

(** The body of [for t in range(total_steps)], [n] iterations of it. *)
Fixpoint simulate (n : nat) (env : Environment.t) (poverty_rates : list float)
  : Py.res (list float) :=
  match n with
  | O => Ok poverty_rates
  | S n' =>
      env' <- Environment.step env ;;
      rate <- poverty_rate env' ;;
      simulate n' env' (poverty_rates ++ [rate])
  end.

(** [run_sim(years, steps_per_year)], from generator state [g]: the array
    of poverty rates (or the exception raised), and the generator state the
    call leaves behind. *)
Definition run_sim {G : Type} {RS : RandomState G}
    (years steps_per_year : Z) (g : G) : Py.res (list float) * G :=
  let (env, g') := Environment.init 1000 2 g in
  (simulate (Z.to_nat (years * steps_per_year)) env [], g').

(* ================================================================= *)
(** ** Classes of binary64 values

    The proofs read a float through [Prim2SF], its IEEE-754 specification
    value.  These predicates name the classes that matter below. *)

Module SFClass.

(** Zero with a plus sign, a positive finite number or plus infinity. *)
Definition sf_nonneg (x : spec_float) : bool :=
  match x with
  | S754_zero false | S754_infinity false | S754_finite false _ _ => true
  | _ => false
  end.

(** A positive finite number or plus infinity. *)
Definition sf_pos (x : spec_float) : bool :=
  match x with
  | S754_infinity false | S754_finite false _ _ => true
  | _ => false
  end.

(** A positive finite number. *)
Definition sf_posfin (x : spec_float) : bool :=
  match x with
  | S754_finite false _ _ => true
  | _ => false
  end.

Definition sf_is_inf (x : spec_float) : bool :=
  match x with
  | S754_infinity _ => true
  | _ => false
  end.

(** A zero of either sign, a positive finite number or plus infinity: the
    values [x] with [0 <= x]. *)
Definition sf_ge0 (x : spec_float) : bool :=
  match x with
  | S754_zero _ | S754_infinity false | S754_finite false _ _ => true
  | _ => false
  end.

(** A value [x] with [0 <= x], or a NaN: what sums and products of such
    values are. *)
Definition sf_ge0n (x : spec_float) : bool :=
  match x with
  | S754_nan => true
  | _ => sf_ge0 x
  end.

(** A shift record whose round and sticky bits are both clear: nothing
    but zeros has been shifted out. *)
Definition clean (mrs : shr_record) : Prop :=
  shr_r mrs = false /\ shr_s mrs = false.

End SFClass.
Import SFClass.

(* ================================================================= *)
(** ** The update rule as the specification words it (section 4.2)

    Five steps over IEEE arithmetic, with no failure mode.  [max] is the
    same two-argument maximum the code uses; [clamp] is the usual
    three-way clamp. *)

Module Spec.

Definition clamp (x lo hi : float) : float :=
  if (x <? lo)%float then lo else if (hi <? x)%float then hi else x.

Definition epsilon : float := 1e-6.

Definition step (policy : Policy.t) (basic_need : float) (p : Person.t)
  : Person.t :=
  (* 1. desired labor supply *)
  let gap := Py.max 0 (basic_need - Policy.ubi_amount policy) in
  let target_hours := (gap / (Person.hourly_wage p * 4 + epsilon))%float in
  (* 2. smoothing *)
  let work_hours :=
    clamp (0.7 * Person.work_hours p + 0.3 * target_hours)%float 0 60 in
  (* 3. income *)
  let income_labor := (Person.hourly_wage p * work_hours * 4)%float in
  let income_total := (income_labor + Policy.ubi_amount policy)%float in
  (* 4. disposable income and savings *)
  let disposable_income :=
    (income_total * (1 - Policy.income_tax_rate policy))%float in
  let saving := (Person.saving p + disposable_income * 0.2)%float in
  (* 5. happiness *)
  let happiness :=
    (5 + 0.00001 * income_total - 0.05 * Py.max 0 (work_hours - 40))%float in
  Person.mk (Person.id p) (Person.age p) (Person.hourly_wage p)
    work_hours saving (Person.household_id p) happiness.

End Spec.

(* ================================================================= *)
(** ** The income of a step, read from the state it returns

    [step] computes [income_total] and [disposable_income] from the wage
    (which it does not change) and the new [work_hours]; they can be read
    back from the returned state. *)

Definition income_total (policy : Policy.t) (p' : Person.t) : float :=
  (Person.hourly_wage p' * Person.work_hours p' * 4
   + Policy.ubi_amount policy)%float.

Definition disposable_income (policy : Policy.t) (p' : Person.t) : float :=
  (income_total policy p' * (1 - Policy.income_tax_rate policy))%float.

(* ================================================================= *)
(** ** Invariants of person states *)

(** The wage floor of population construction. *)
Definition wage_floored (p : Person.t) : Prop :=
  (600 <=? Person.hourly_wage p)%float = true.

(** A wage for which [step] cannot divide by zero: a floored wage, or the
    NaN that the floor lets through. *)
Definition wage_safe (p : Person.t) : Prop :=
  is_nan (Person.hourly_wage p) = true \/ wage_floored p.

Definition hours_bounded (p : Person.t) : Prop :=
  (0 <=? Person.work_hours p)%float = true /\
  (Person.work_hours p <=? 60)%float = true.

(* ================================================================= *)
(** ** Environments of a run *)

(** The environments a run passes through: the constructed one, and every
    one a successful step leads to. *)
Inductive reachable_from (env0 : Environment.t) : Environment.t -> Prop :=
| reachable_start : reachable_from env0 env0
| reachable_step (env env' : Environment.t) :
    reachable_from env0 env -> Environment.step env = Ok env' ->
    reachable_from env0 env'.

Definition reachable {G : Type} {RS : RandomState G} (env : Environment.t)
  : Prop :=
  exists (n_households persons_per_household : Z) (g : G),
    reachable_from
      (fst (Environment.init n_households persons_per_household g)) env.

(** A small deterministic generator on which the model can be run: the
    state is a counter, ages cycle through the requested range and wages
    through a fixed table of standard scores (the first two fall below the
    wage floor). *)
Module Cycle.

Definition scores : list float :=
  [-2.5; -1.9; -0.75; 0; 0.25; 1; 1.5; 3]%float.

Definition randint (lo hi : Z) (g : nat) : Z * nat :=
  ((lo + Z.of_nat g mod (hi - lo))%Z, S g).

Definition normal (mu sigma : float) (g : nat) : float * nat :=
  ((mu + sigma * nth (g mod 8) scores 0)%float, S g).

Definition rs : RandomState nat := Build_RandomState nat randint normal.

End Cycle.

(** The ownership contract: every member id of every household is a key of
    the persons dictionary. *)
Definition members_present (env : Environment.t) : Prop :=
  forall hid h, In (hid, h) (Environment.households env) ->
  forall pid, In pid (Household.member_ids h) ->
  In pid (Py.keys (Environment.persons env)).

(** The ids [0, 1, ..., n-1] in creation order. *)
Definition ids (n : nat) : list Z := map Z.of_nat (seq 0 n).

(** A household entry as construction leaves it: filed under its own id,
    with the default poverty line, and with members among the first
    [bound] person ids. *)
Definition household_ok (bound : nat) (kv : Z * Household.t) : Prop :=
  Household.id (snd kv) = fst kv /\
  Household.poverty_line (snd kv) = 200000%float /\
  forall pid, In pid (Household.member_ids (snd kv)) -> In pid (ids bound).

(** The shape of an environment with [n] persons and [c] households all
    of whose persons satisfy [Q]. *)
Definition env_inv (Q : Person.t -> Prop) (n c : nat) (env : Environment.t)
  : Prop :=
  Environment.policy env = Policy.default /\
  Py.keys (Environment.persons env) = ids n /\
  Py.keys (Environment.households env) = ids c /\
  Forall Q (Py.values (Environment.persons env)) /\
  Forall (household_ok n) (Environment.households env).

(* ================================================================= *)
(** ** Updating the persons in another order

    [Environment.step] walks [self.persons.values()] in insertion order.
    To speak of other orders, [step_in_order] visits the person ids in a
    given order instead: each visit fetches the person object from the
    dictionary and lets [step] mutate it where it sits. *)

Definition visit {V : Type} (f : V -> Py.res V) (d : Py.dict V) (k : Z)
  : Py.res (Py.dict V) :=
  v <- Py.get d k ;;
  v' <- f v ;;
  Ok (Py.set d k v').

Fixpoint visit_all {V : Type} (f : V -> Py.res V) (order : list Z)
    (d : Py.dict V) : Py.res (Py.dict V) :=
  match order with
  | [] => Ok d
  | k :: order' => d' <- visit f d k ;; visit_all f order' d'
  end.

Definition step_in_order (order : list Z) (self : Environment.t)
  : Py.res Environment.t :=
  let macro_state : Person.macro_state := [] in
  persons' <- visit_all
                (Person.step (Environment.policy self) macro_state
                   Environment.basic_need)
                order (Environment.persons self) ;;
  households' <- Py.update_values (Household.aggregate persons')
                   (Environment.households self) ;;
  Ok (Environment.mk (Environment.policy self) persons' households').

(** The quotient of a count by the number of households is a fraction. *)
Definition is_fraction (r : float) : bool :=
  ((0 <=? r) && (r <=? 1))%float.

(* ================================================================= *)
(** ** The samples a construction consumes *)

Section Draws.
Context {G : Type} {RS : RandomState G}.

(** The two samples drawn for one person: the age first, then the wage. *)
Definition draw (g : G) : (Z * float) * G :=
  let (a, g1) := randint 20 60 g in
  let (w, g2) := normal 1500 500 g1 in
  ((a, w), g2).

(** The samples drawn for [n] persons, and the generator state after. *)
Fixpoint draws (n : nat) (g : G) : list (Z * float) :=
  match n with
  | O => []
  | S n' => fst (draw g) :: draws n' (snd (draw g))
  end.

Fixpoint after_draws (n : nat) (g : G) : G :=
  match n with
  | O => g
  | S n' => after_draws n' (snd (draw g))
  end.

End Draws.

(* ================================================================= *)
(** ** One person, month after month *)

(** What [t] successive calls of [Environment.step] do to one person:
    [t] calls of [Person.step] with the same policy and basic need. *)
Fixpoint person_steps (policy : Policy.t) (basic_need : float) (t : nat)
    (p : Person.t) : Py.res Person.t :=
  match t with
  | O => Ok p
  | S t' =>
      p' <- person_steps policy basic_need t' p ;;
      Person.step policy [] basic_need p'
  end.

(** Forty hours multiplied [t] times by the float 0.7, rounding each
    product as the processor does. *)
Fixpoint decay (t : nat) : float :=
  match t with
  | O => 40%float
  | S t' => (0.7 * decay t')%float
  end.

(** The same trajectory as a list: [w], [0.7 * w], ... ([n + 1] entries). *)
Fixpoint orbit (n : nat) (w : float) : list float :=
  match n with
  | O => [w]
  | S n' => w :: orbit n' (0.7 * w)%float
  end.

(** The float power [x ** t] by repeated multiplication. *)
Fixpoint fpow (x : float) (t : nat) : float :=
  match t with
  | O => 1%float
  | S t' => (x * fpow x t')%float
  end.

(** The smallest positive binary64 number. *)
Definition min_subnormal : float := 0x1p-1074%float.

(** The exact rational value of a finite float. *)
Definition F2Q (x : float) : option Q :=
  match Prim2SF x with
  | S754_zero _ => Some 0%Q
  | S754_finite s m e =>
      Some (inject_Z (if s then Zneg m else Zpos m) * Qpower 2 e)%Q
  | _ => None
  end.

(* ================================================================= *)
(** ** Several months in a row *)

(** [n] successive calls of [env.step()], as the loop of [run_sim] makes
    them. *)
Fixpoint steps (n : nat) (env : Environment.t) : Py.res Environment.t :=
  match n with
  | O => Ok env
  | S n' => env' <- Environment.step env ;; steps n' env'
  end.

(** The pair of samples drawn for the person created [i]-th (counting from
    0) when construction starts from generator state [g]. *)
Definition sample {G : Type} {RS : RandomState G} (i : nat) (g : G)
  : Z * float :=
  fst (draw (after_draws i g)).

(** The person [Environment.__init__] makes from a pair of samples. *)
Definition person_of (pid hid : Z) (s : Z * float) : Person.t :=
  Person.mk pid (fst s)
    (if (snd s <? 600)%float then 600%float else snd s) 40 0 hid 5.

(* ================================================================= *)
(** ** The layout of a population

    With [pph] persons per household, construction files person [i] in
    household [i / pph]: household [c] owns the block of person ids
    [c * pph, ..., c * pph + pph - 1]. *)

(** A persons entry as construction leaves it, when it started from
    generator state [g0]. *)
Definition person_init {G : Type} {RS : RandomState G} (pph : nat) (g0 : G)
    (kv : Z * Person.t) : Prop :=
  exists i hid : nat,
    fst kv = Z.of_nat i /\
    snd kv = person_of (Z.of_nat i) (Z.of_nat hid) (sample i g0) /\
    (hid * pph <= i < hid * pph + pph)%nat.

Definition household_init (pph : nat) (kv : Z * Household.t) : Prop :=
  exists c : nat,
    fst kv = Z.of_nat c /\
    snd kv = Household.new (Z.of_nat c) (map Z.of_nat (seq (c * pph) pph)).

(** What remains of it when months have passed: who is filed where. *)
Definition person_filed (pph : nat) (kv : Z * Person.t) : Prop :=
  exists i hid : nat,
    fst kv = Z.of_nat i /\
    Person.id (snd kv) = Z.of_nat i /\
    Person.household_id (snd kv) = Z.of_nat hid /\
    (hid * pph <= i < hid * pph + pph)%nat.

Definition household_filed (pph : nat) (kv : Z * Household.t) : Prop :=
  exists c : nat,
    fst kv = Z.of_nat c /\
    Household.id (snd kv) = Z.of_nat c /\
    Household.member_ids (snd kv) = map Z.of_nat (seq (c * pph) pph).

Definition env_layout (pph n_households : nat) (env : Environment.t) : Prop :=
  Py.keys (Environment.persons env) = ids (n_households * pph) /\
  Py.keys (Environment.households env) = ids n_households /\
  Forall (person_filed pph) (Environment.persons env) /\
  Forall (household_filed pph) (Environment.households env).

(* ================================================================= *)
(** ** Savers and vacant households *)

(** A person whose wage is floored and finite and whose savings are not
    negative. *)
Definition saver (p : Person.t) : Prop :=
  wage_floored p /\
  (Person.hourly_wage p <? infinity)%float = true /\
  (0 <=? Person.saving p)%float = true.

(** A household without members that has no income, under the default
    poverty line. *)
Definition vacant (kv : Z * Household.t) : Prop :=
  Household.member_ids (snd kv) = [] /\
  Household.income (snd kv) = 0%float /\
  Household.poverty_line (snd kv) = 200000%float.

(** An environment of [n] households none of which has a member. *)
Definition memberless (n : nat) (env : Environment.t) : Prop :=
  Environment.persons env = [] /\
  length (Environment.households env) = n /\
  Forall vacant (Environment.households env).

(* ================================================================= *)
(** * Properties *)

(** ** The error monad and dictionaries *)

Lemma bind_Ok_inv {A B : Type} (m : Py.res A) (k : A -> Py.res B) (b : B) :
  Py.bind m k = Ok b -> exists a, m = Ok a /\ k a = Ok b.
Proof.
  destruct m as [a|e]; simpl; intros H; [eauto | discriminate].
Qed.

Section PyFacts.
Context {A B : Type}.

Lemma mapM_Ok_Forall2 (f : A -> Py.res B) (l : list A) (l' : list B) :
  Py.mapM f l = Ok l' -> Forall2 (fun x y => f x = Ok y) l l'.
Proof.
  revert l'; induction l as [|x xs IH]; simpl; intros l' H.
  - injection H as <-. constructor.
  - apply bind_Ok_inv in H as (y & Hy & H).
    apply bind_Ok_inv in H as (ys & Hys & H).
    injection H as <-. constructor; auto.
Qed.

Lemma Forall2_mapM_Ok (f : A -> Py.res B) (l : list A) (l' : list B) :
  Forall2 (fun x y => f x = Ok y) l l' -> Py.mapM f l = Ok l'.
Proof.
  induction 1 as [|x y xs ys Hxy _ IH]; simpl; [reflexivity|].
  rewrite Hxy; simpl. rewrite IH; reflexivity.
Qed.

Lemma mapM_total (f : A -> Py.res B) (l : list A) :
  (forall x, In x l -> exists y, f x = Ok y) ->
  exists l', Py.mapM f l = Ok l'.
Proof.
  induction l as [|x xs IH]; simpl; intros H; [eauto|].
  destruct (H x (or_introl eq_refl)) as [y Hy].
  destruct IH as [ys Hys]; [intros; apply H; auto|].
  exists (y :: ys). rewrite Hy; simpl. rewrite Hys; reflexivity.
Qed.

(** A loop whose body raises for some element raises. *)
Lemma mapM_Ok_all (f : A -> Py.res B) (l : list A) (l' : list B) :
  Py.mapM f l = Ok l' -> forall x, In x l -> exists y, f x = Ok y /\ In y l'.
Proof.
  intros H%mapM_Ok_Forall2. induction H as [|x y xs ys Hxy _ IH]; simpl.
  - contradiction.
  - intros x' [<-|Hin]; [eauto|].
    destruct (IH _ Hin) as (y' & ? & ?); eauto.
Qed.

Lemma mapM_Ok_length (f : A -> Py.res B) (l : list A) (l' : list B) :
  Py.mapM f l = Ok l' -> length l' = length l.
Proof.
  intros H%mapM_Ok_Forall2. induction H; simpl; congruence.
Qed.

Lemma mapM_ext_in (f g : A -> Py.res B) (l : list A) :
  (forall x, In x l -> f x = g x) -> Py.mapM f l = Py.mapM g l.
Proof.
  induction l as [|x xs IH]; simpl; intros H; [reflexivity|].
  rewrite (H x) by auto. rewrite IH by auto. reflexivity.
Qed.

End PyFacts.

Section DictFacts.
Context {V : Type}.
Implicit Types (d : Py.dict V) (k : Z) (v : V).

Lemma get_Ok_In d k v : Py.get d k = Ok v -> In (k, v) d.
Proof.
  induction d as [|[k' v'] d IH]; simpl; [discriminate|].
  destruct (Z.eqb_spec k' k) as [->|_].
  - intros [= ->]; auto.
  - auto.
Qed.

Lemma get_Ok_key d k v : Py.get d k = Ok v -> In k (Py.keys d).
Proof.
  intros H%get_Ok_In. change k with (fst (k, v)). now apply in_map.
Qed.

Lemma get_key_Ok d k : In k (Py.keys d) -> exists v, Py.get d k = Ok v.
Proof.
  induction d as [|[k' v'] d IH]; simpl; [contradiction|].
  destruct (Z.eqb_spec k' k) as [->|Hne]; [eauto|].
  intros [?|?]; [contradiction|auto].
Qed.

Lemma get_not_key d k : ~ In k (Py.keys d) -> Py.get d k = Raise (Py.KeyError k).
Proof.
  induction d as [|[k' v'] d IH]; simpl; [reflexivity|].
  destruct (Z.eqb_spec k' k) as [->|Hne]; intros H.
  - exfalso; auto.
  - apply IH; auto.
Qed.

Lemma get_raises_KeyError d k e : Py.get d k = Raise e -> e = Py.KeyError k.
Proof.
  induction d as [|[k' v'] d IH]; simpl.
  - now intros [= <-].
  - destruct (Z.eqb k' k); [discriminate | assumption].
Qed.

Lemma In_get_NoDup d k v :
  NoDup (Py.keys d) -> In (k, v) d -> Py.get d k = Ok v.
Proof.
  induction d as [|[k' v'] d IH]; simpl; [contradiction|].
  intros Hnd [[= -> ->]|Hin].
  - now rewrite Z.eqb_refl.
  - inversion_clear Hnd as [|? ? Hnotin Hnd'].
    destruct (Z.eqb_spec k' k) as [->|_]; [|auto].
    exfalso; apply Hnotin. change k with (fst (k, v)). now apply in_map.
Qed.

Lemma keys_set_new d k v : ~ In k (Py.keys d) -> Py.set d k v = d ++ [(k, v)].
Proof.
  induction d as [|[k' v'] d IH]; simpl; [reflexivity|].
  destruct (Z.eqb_spec k' k) as [->|Hne]; intros H.
  - exfalso; auto.
  - rewrite IH; auto.
Qed.

Lemma update_values_Forall2 (f : V -> Py.res V) d d' :
  Py.update_values f d = Ok d' ->
  Forall2 (fun kv kv' => fst kv' = fst kv /\ f (snd kv) = Ok (snd kv')) d d'.
Proof.
  intros H%mapM_Ok_Forall2.
  induction H as [|[k v] [k' v'] xs ys Hxy _ IH]; constructor; auto.
  simpl in *. apply bind_Ok_inv in Hxy as (w & Hw & [= <- <-]). auto.
Qed.

Lemma update_values_keys (f : V -> Py.res V) d d' :
  Py.update_values f d = Ok d' -> Py.keys d' = Py.keys d.
Proof.
  intros H%update_values_Forall2.
  induction H as [|? ? ? ? [Hk _] _ IH]; simpl; [reflexivity|].
  now rewrite Hk, IH.
Qed.

Lemma update_values_length (f : V -> Py.res V) d d' :
  Py.update_values f d = Ok d' -> length d' = length d.
Proof. apply mapM_Ok_length. Qed.

Lemma update_values_get (f : V -> Py.res V) d d' k v' :
  Py.update_values f d = Ok d' -> Py.get d' k = Ok v' ->
  exists v, Py.get d k = Ok v /\ f v = Ok v'.
Proof.
  intros H%update_values_Forall2.
  induction H as [|[k0 v0] [k1 v1] xs ys [Hk Hf] _ IH]; simpl;
    [discriminate|].
  simpl in Hk, Hf; subst k1.
  destruct (Z.eqb k0 k); [intros [= <-]; eauto | auto].
Qed.

Lemma update_values_In (f : V -> Py.res V) d d' k v' :
  Py.update_values f d = Ok d' -> In (k, v') d' ->
  exists v, In (k, v) d /\ f v = Ok v'.
Proof.
  intros H%update_values_Forall2.
  induction H as [|[k0 v0] [k1 v1] xs ys [Hk Hf] _ IH]; simpl;
    [contradiction|].
  simpl in Hk, Hf; subst k1.
  intros [[= -> ->]|Hin]; [eauto|].
  destruct (IH Hin) as (v & ? & ?); eauto.
Qed.

Lemma update_values_total (f : V -> Py.res V) d :
  (forall k v, In (k, v) d -> exists v', f v = Ok v') ->
  exists d', Py.update_values f d = Ok d'.
Proof.
  intros H. apply mapM_total. intros [k v] Hin.
  destruct (H k v Hin) as [v' Hv']. exists (k, v'). simpl.
  now rewrite Hv'.
Qed.

End DictFacts.

(* ================================================================= *)
(** ** Binary64 arithmetic

    Facts about the specification of the primitive float operations
    ([SpecFloat]): how the rounding functions act on mantissas, the sign
    class of sums, products and quotients, and the order. *)

Module SF.
Local Open Scope Z_scope.

Lemma shr_1_m (mrs : shr_record) :
  0 <= shr_m mrs -> shr_m (shr_1 mrs) = shr_m mrs / 2.
Proof.
  destruct mrs as [m r s]; cbn [shr_m shr_1]; intros Hm.
  destruct m as [|[q|q|]|q]; cbn [shr_m]; try lia.
  - reflexivity.
  - apply Z.div_unique with 1; lia.
  - apply Z.div_unique with 0; lia.
  - reflexivity.
Qed.

Lemma iter_pos_shr_1_m (p : positive) (mrs : shr_record) :
  0 <= shr_m mrs ->
  shr_m (iter_pos shr_1 p mrs) = shr_m mrs / 2 ^ Zpos p.
Proof.
  revert mrs. induction p as [p IH|p IH|]; intros mrs Hm; cbn [iter_pos].
  - assert (H0 : 0 <= shr_m (shr_1 mrs))
      by (rewrite shr_1_m by assumption; apply Z.div_pos; lia).
    rewrite IH.
    2:{ rewrite IH by assumption. apply Z.div_pos; lia. }
    rewrite IH by assumption. rewrite shr_1_m by assumption.
    rewrite !Z.div_div by lia.
    f_equal. change 2 with (2 ^ 1) at 1.
    rewrite <- !Z.pow_add_r by lia. f_equal. lia.
  - rewrite IH.
    2:{ rewrite IH by assumption. apply Z.div_pos; lia. }
    rewrite IH by assumption.
    rewrite !Z.div_div by lia.
    f_equal. rewrite <- !Z.pow_add_r by lia. f_equal. lia.
  - rewrite shr_1_m by assumption. reflexivity.
Qed.

Lemma shr_m_div (mrs : shr_record) (e n : Z) :
  0 <= shr_m mrs ->
  shr_m (fst (shr mrs e n)) = shr_m mrs / 2 ^ Z.max 0 n /\
  snd (shr mrs e n) = e + Z.max 0 n.
Proof.
  intros Hm. destruct n as [|p|p]; cbn [shr fst snd].
  - rewrite Z.div_1_r. lia.
  - rewrite iter_pos_shr_1_m by assumption. replace (Z.max 0 (Z.pos p)) with (Z.pos p) by lia. auto.
  - replace (Z.max 0 (Z.neg p)) with 0 by lia. rewrite Z.div_1_r. lia.
Qed.

Lemma shr_record_of_loc_m m l : shr_m (shr_record_of_loc m l) = m.
Proof. destruct l as [|[]]; reflexivity. Qed.

Lemma round_nearest_even_bounds m l :
  m <= round_nearest_even m l <= m + 1.
Proof.
  destruct l as [|[]]; cbn [round_nearest_even]; try lia.
  destruct (Z.even m); lia.
Qed.

Lemma digits2_pos_bounds (m : positive) :
  2 ^ (Zpos (digits2_pos m) - 1) <= Zpos m < 2 ^ Zpos (digits2_pos m).
Proof.
  induction m as [m IH|m IH|]; cbn [digits2_pos].
  - rewrite Pos2Z.inj_succ.
    replace (Z.succ (Z.pos (digits2_pos m)) - 1)
      with (1 + (Z.pos (digits2_pos m) - 1)) by lia.
    rewrite Z.pow_succ_r, Z.pow_add_r by lia. change (2 ^ 1) with 2.
    destruct IH as [IH1 IH2]. revert IH1 IH2.
    generalize (2 ^ (Z.pos (digits2_pos m) - 1)) (2 ^ Z.pos (digits2_pos m)).
    intros; lia.
  - rewrite Pos2Z.inj_succ.
    replace (Z.succ (Z.pos (digits2_pos m)) - 1)
      with (1 + (Z.pos (digits2_pos m) - 1)) by lia.
    rewrite Z.pow_succ_r, Z.pow_add_r by lia. change (2 ^ 1) with 2.
    destruct IH as [IH1 IH2]. revert IH1 IH2.
    generalize (2 ^ (Z.pos (digits2_pos m) - 1)) (2 ^ Z.pos (digits2_pos m)).
    intros; lia.
  - cbv. split; [intros H; discriminate H | reflexivity].
Qed.

Lemma iter_xO_pow (m d : positive) :
  Zpos (Pos.iter xO m d) = Zpos m * 2 ^ Zpos d.
Proof.
  induction d as [|d IH] using Pos.peano_ind.
  - cbn [Pos.iter]. rewrite Z.pow_1_r. lia.
  - rewrite Pos.iter_succ, Pos2Z.inj_succ, Z.pow_succ_r by lia.
    change (Zpos (Pos.iter xO m d)~0) with (2 * Zpos (Pos.iter xO m d)).
    rewrite IH. ring.
Qed.

Section Round.
Variables prec emax : Z.
Hypothesis prec_pos : 0 < prec.

Lemma shr_fexp_m m e l :
  0 <= m ->
  let n := Z.max 0 (fexp prec emax (Zdigits2 m + e) - e) in
  shr_m (fst (shr_fexp prec emax m e l)) = m / 2 ^ n /\
  snd (shr_fexp prec emax m e l) = e + n.
Proof.
  intros Hm n. unfold shr_fexp.
  destruct (shr_m_div (shr_record_of_loc m l) e
              (fexp prec emax (Zdigits2 m + e) - e)) as [H1 H2].
  - now rewrite shr_record_of_loc_m.
  - rewrite shr_record_of_loc_m in H1. auto.
Qed.

(** Rounding a non-negative mantissa never produces a NaN and keeps the sign. *)
Lemma binary_round_aux_nonneg mx ex lx :
  0 <= mx -> sf_nonneg (binary_round_aux prec emax false mx ex lx) = true.
Proof.
  intros Hm. unfold binary_round_aux.
  destruct (shr_fexp_m mx ex lx Hm) as [H1 _].
  destruct (shr_fexp prec emax mx ex lx) as [mrs' e'] eqn:E1.
  cbn [fst] in H1.
  set (m2 := round_nearest_even (shr_m mrs') (loc_of_shr_record mrs')).
  assert (Hm1 : 0 <= shr_m mrs') by (rewrite H1; apply Z.div_pos; lia).
  assert (Hm2 : 0 <= m2)
    by (pose proof (round_nearest_even_bounds (shr_m mrs') (loc_of_shr_record mrs')); fold m2 in H; lia).
  destruct (shr_fexp_m m2 e' loc_Exact Hm2) as [H3 _].
  destruct (shr_fexp prec emax m2 e' loc_Exact) as [mrs'' e''] eqn:E2.
  cbn [fst] in H3.
  assert (Hm3 : 0 <= shr_m mrs'') by (rewrite H3; apply Z.div_pos; lia).
  destruct (shr_m mrs''); try reflexivity.
  - destruct (e'' <=? emax - prec); reflexivity.
  - lia.
Qed.

Lemma shr_fexp_pos m e l :
  0 < m -> SpecFloat.emin prec emax <= e ->
  0 < shr_m (fst (shr_fexp prec emax m e l)) /\
  SpecFloat.emin prec emax <= snd (shr_fexp prec emax m e l).
Proof.
  intros Hm He.
  destruct (shr_fexp_m m e l) as [H1 H2]; [lia|].
  rewrite H1, H2. split; [|lia].
  destruct m as [|p|p]; try lia.
  cbn [Zdigits2]. pose proof (digits2_pos_bounds p) as [Hlo _].
  set (d := Z.pos (digits2_pos p)) in *.
  assert (Hd : 0 < d) by (unfold d; lia).
  set (n := Z.max 0 (fexp prec emax (d + e) - e)).
  assert (Hn : 0 <= n <= d - 1) by (unfold n, fexp; lia).
  apply Z.div_str_pos. split; [apply Z.pow_pos_nonneg; lia|].
  transitivity (2 ^ (d - 1)); [apply Z.pow_le_mono_r; lia | assumption].
Qed.

(** Rounding a positive mantissa at an exponent that is not below [emin]
    cannot underflow to zero. *)
Lemma binary_round_aux_pos mx ex lx :
  0 < mx -> SpecFloat.emin prec emax <= ex ->
  sf_pos (binary_round_aux prec emax false mx ex lx) = true.
Proof.
  intros Hm He. unfold binary_round_aux.
  destruct (shr_fexp_pos mx ex lx Hm He) as [H1 H2].
  destruct (shr_fexp prec emax mx ex lx) as [mrs' e'] eqn:E1.
  cbn [fst snd] in H1, H2.
  set (m2 := round_nearest_even (shr_m mrs') (loc_of_shr_record mrs')).
  assert (Hm2 : 0 < m2)
    by (pose proof (round_nearest_even_bounds (shr_m mrs') (loc_of_shr_record mrs')); fold m2 in H; lia).
  destruct (shr_fexp_pos m2 e' loc_Exact Hm2 H2) as [H3 _].
  destruct (shr_fexp prec emax m2 e' loc_Exact) as [mrs'' e''] eqn:E2.
  cbn [fst] in H3.
  destruct (shr_m mrs''); try lia.
  destruct (e'' <=? emax - prec); reflexivity.
Qed.

Lemma shl_align_spec (mx : positive) (ex ex' : Z) :
  Zpos (fst (shl_align mx ex ex')) = Zpos mx * 2 ^ (ex - Z.min ex ex') /\
  snd (shl_align mx ex ex') = Z.min ex ex'.
Proof.
  unfold shl_align. destruct (ex' - ex) as [|d|d] eqn:E; cbn [fst snd].
  - replace (ex - Z.min ex ex') with 0 by lia. rewrite Z.pow_0_r. lia.
  - replace (ex - Z.min ex ex') with 0 by lia. rewrite Z.pow_0_r. lia.
  - replace (ex - Z.min ex ex') with (Zpos d) by lia.
    split; [|lia]. apply iter_xO_pow.
Qed.

End Round.

(** *** Binary64 operations on the non-negative class *)

Lemma prec_pos64 : 0 < prec.
Proof. reflexivity. Qed.

Lemma valid_binary_emin s m e :
  valid_binary (S754_finite s m e) = true -> emin <= e.
Proof.
  cbn [SpecFloat.valid_binary]. unfold bounded, canonical_mantissa.
  intros [H _]%andb_prop. apply Z.eqb_eq in H. unfold fexp in H. lia.
Qed.

Lemma SFmul_posfin_l c y :
  sf_posfin c = true -> sf_nonneg y = true -> sf_nonneg (SF64mul c y) = true.
Proof.
  destruct c as [| | |[] mc ec]; try discriminate. intros _.
  destruct y as [[]|[]| |[] my ey]; try discriminate; intros _;
    try reflexivity.
  apply binary_round_aux_nonneg. lia.
Qed.

Lemma SFmul_posfin_r x c :
  sf_nonneg x = true -> sf_posfin c = true -> sf_nonneg (SF64mul x c) = true.
Proof.
  intros Hx Hc.
  destruct c as [| | |[] mc ec]; try discriminate.
  destruct x as [[]|[]| |[] mx ex]; try discriminate; try reflexivity.
  apply binary_round_aux_nonneg. lia.
Qed.

Lemma binary_round_nonneg m e :
  sf_nonneg (binary_round prec emax false m e) = true.
Proof.
  unfold binary_round. destruct shl_align as [mz ez].
  apply binary_round_aux_nonneg. lia.
Qed.

Lemma binary_round_pos m e :
  emin <= e -> sf_pos (binary_round prec emax false m e) = true.
Proof.
  intros He. unfold binary_round.
  pose proof (shl_align_spec m e (fexp prec emax (Z.pos (digits2_pos m) + e))) as [_ H2].
  destruct shl_align as [mz ez]. cbn [snd] in H2.
  apply binary_round_aux_pos; [exact prec_pos64 | lia |].
  subst ez. unfold fexp. lia.
Qed.

Lemma SFadd_nonneg x y :
  sf_nonneg x = true -> sf_nonneg y = true -> sf_nonneg (SF64add x y) = true.
Proof.
  destruct x as [[]|[]| |[] mx ex]; try discriminate; intros _;
  destruct y as [[]|[]| |[] my ey]; try discriminate; intros _;
    try reflexivity.
  unfold SF64add, SFadd. cbn [cond_Zopp].
  destruct (shl_align mx ex (Z.min ex ey)) as [ax ?].
  destruct (shl_align my ey (Z.min ex ey)) as [ay ?].
  cbn [fst Z.add binary_normalize]. apply binary_round_nonneg.
Qed.

(** Adding a positive finite number to a non-negative one gives a positive
    number: a sum of binary64 numbers cannot underflow. *)
Lemma SFadd_pos_r x y :
  sf_nonneg x = true -> valid_binary x = true ->
  sf_posfin y = true -> valid_binary y = true ->
  sf_pos (SF64add x y) = true.
Proof.
  intros Hx Vx Hy Vy.
  destruct y as [| | |[] my ey]; try discriminate.
  destruct x as [[]|[]| |[] mx ex]; try discriminate; try reflexivity.
  apply valid_binary_emin in Vx, Vy.
  unfold SF64add, SFadd. cbn [cond_Zopp].
  destruct (shl_align mx ex (Z.min ex ey)) as [ax ?].
  destruct (shl_align my ey (Z.min ex ey)) as [ay ?].
  cbn [fst Z.add binary_normalize]. apply binary_round_pos. lia.
Qed.

Lemma SFdiv_nonneg x y :
  sf_nonneg x = true -> sf_pos y = true ->
  sf_is_inf x && sf_is_inf y = false ->
  sf_nonneg (SF64div x y) = true.
Proof.
  destruct x as [[]|[]| |[] mx ex]; try discriminate; intros _;
  destruct y as [[]|[]| |[] my ey]; try discriminate; intros _ Hi;
    try discriminate; try reflexivity.
  unfold SF64div, SFdiv. cbn [xorb].
  destruct (SFdiv_core_binary prec emax (Z.pos mx) ex (Z.pos my) ey)
    as [[mz ez] lz] eqn:E.
  apply binary_round_aux_nonneg.
  unfold SFdiv_core_binary in E.
  set (m' := match _ - _ - _ with Z0 => _ | Zpos _ => _ | Zneg _ => _ end) in E.
  assert (Hm' : 0 <= m').
  { unfold m'. destruct (_ - _ - _); try lia. apply Z.shiftl_nonneg. lia. }
  pose proof (Z_div_mod m' (Z.pos my) eq_refl) as H.
  destruct (Z.div_eucl m' (Z.pos my)) as [q r]. injection E as <- _ _.
  nia.
Qed.

(** *** Comparisons *)

Lemma SFcompare_antisym x y :
  SFcompare y x = option_map CompOpp (SFcompare x y).
Proof.
  destruct x as [[]|[]| |[] mx ex], y as [[]|[]| |[] my ey];
    try reflexivity; cbn [SFcompare option_map]; f_equal.
  - rewrite (Z.compare_antisym ex ey).
    destruct (ex ?= ey); cbn [CompOpp]; try reflexivity.
    rewrite (Pos.compare_cont_antisym mx my Eq). reflexivity.
  - rewrite (Z.compare_antisym ex ey).
    destruct (ex ?= ey); cbn [CompOpp]; try reflexivity.
    rewrite (Pos.compare_cont_antisym mx my Eq). cbn [CompOpp].
    destruct (Pos.compare_cont Eq mx my); reflexivity.
Qed.

Lemma SFcompare_Eq_finite s m e y :
  SFcompare (S754_finite s m e) y = Some Eq -> y = S754_finite s m e.
Proof.
  destruct y as [[]|[]| |s' my ey]; cbn [SFcompare]; try discriminate;
    try (destruct s; discriminate).
  destruct s, s'; try discriminate; intros [= H];
    destruct (Z.compare_spec e ey) as [->|?|?]; try discriminate.
  - destruct (Pos.compare_cont Eq m my) eqn:E; try discriminate.
    apply Pos.compare_eq in E. now subst.
  - apply Pos.compare_eq in H. now subst.
Qed.

Lemma SFltb_SFleb x y : SFltb x y = true -> SFleb x y = true.
Proof. unfold SFltb, SFleb. destruct (SFcompare x y) as [[]|]; auto. Qed.

Lemma SFltb_false_SFleb x y :
  x <> S754_nan -> y <> S754_nan -> SFltb x y = false -> SFleb y x = true.
Proof.
  unfold SFltb, SFleb. rewrite (SFcompare_antisym x y).
  destruct (SFcompare x y) as [[]|] eqn:E; cbn; try reflexivity; try discriminate.
  intros Hx Hy _. destruct x as [[]|[]| |[] mx ex], y as [[]|[]| |[] my ey];
    try discriminate; congruence.
Qed.

Lemma SFltb_asym x y : SFltb x y = true -> SFltb y x = false.
Proof.
  unfold SFltb. rewrite (SFcompare_antisym x y).
  destruct (SFcompare x y) as [[]|]; cbn; auto; discriminate.
Qed.

Lemma SFltb_zero_pos x : SFltb (S754_zero false) x = sf_pos x.
Proof. destruct x as [[]|[]| |[] mx ex]; reflexivity. Qed.

Lemma sf_nonneg_cases x :
  sf_nonneg x = true -> x = S754_zero false \/ sf_pos x = true.
Proof. destruct x as [[]|[]| |[] mx ex]; try discriminate; auto. Qed.

Lemma sf_pos_nonneg x : sf_pos x = true -> sf_nonneg x = true.
Proof. destruct x as [[]|[]| |[] mx ex]; try discriminate; auto. Qed.

Lemma sf_nonneg_not_lt_zero x :
  sf_nonneg x = true -> SFltb x (S754_zero false) = false.
Proof. destruct x as [[]|[]| |[] mx ex]; try discriminate; auto. Qed.

Lemma SFleb_posfin_pos c x :
  sf_posfin c = true -> SFleb c x = true -> sf_pos x = true.
Proof.
  destruct c as [| | |[] mc ec]; try discriminate. intros _.
  destruct x as [[]|[]| |[] mx ex]; try discriminate; auto.
Qed.

Lemma SFleb_fin_not_inf x c :
  sf_posfin c = true -> SFleb x c = true -> sf_is_inf x = false \/ x = S754_infinity true.
Proof.
  destruct c as [| | |[] mc ec]; try discriminate. intros _.
  destruct x as [[]|[]| |[] mx ex]; try discriminate; auto.
Qed.

Lemma SFleb_zero_ge0 x : SFleb (S754_zero false) x = sf_ge0 x.
Proof. destruct x as [[]|[]| |[] mx ex]; reflexivity. Qed.

Lemma sf_nonneg_ge0 x : sf_nonneg x = true -> sf_ge0 x = true.
Proof. destruct x as [[]|[]| |[] mx ex]; try discriminate; auto. Qed.

Lemma SFmul_posfin_l_ge0 c y :
  sf_posfin c = true -> sf_ge0 y = true -> sf_ge0 (SF64mul c y) = true.
Proof.
  destruct c as [| | |[] mc ec]; try discriminate. intros _.
  destruct y as [[]|[]| |[] my ey]; try discriminate; intros _;
    try reflexivity.
  apply sf_nonneg_ge0, binary_round_aux_nonneg. lia.
Qed.

Lemma SFadd_ge0_nonneg x y :
  sf_ge0 x = true -> sf_nonneg y = true -> sf_nonneg (SF64add x y) = true.
Proof.
  intros Hx Hy. destruct (sf_nonneg x) eqn:E; [now apply SFadd_nonneg|].
  destruct x as [[]|[]| |[] mx ex]; try discriminate.
  destruct y as [[]|[]| |[] my ey]; try discriminate; reflexivity.
Qed.

Lemma SFltb_false_both x y :
  x <> S754_nan -> y <> S754_nan ->
  SFltb x y = false -> SFltb y x = false -> SFcompare y x = Some Eq.
Proof.
  unfold SFltb. rewrite (SFcompare_antisym x y).
  destruct (SFcompare x y) as [[]|] eqn:E; cbn; try reflexivity;
    try discriminate.
  intros Hx Hy _ _. destruct x as [[]|[]| |[] mx ex], y as [[]|[]| |[] my ey];
    try discriminate; congruence.
Qed.

Lemma SFltb_inf_not_inf x :
  sf_nonneg x = true -> SFltb x (S754_infinity false) = true ->
  sf_is_inf x = false.
Proof. destruct x as [[]|[]| |[] mx ex]; try discriminate; auto. Qed.

(** *** Monotone rounding *)

Lemma fexp_mono e e' : e <= e' -> fexp prec emax e <= fexp prec emax e'.
Proof. unfold fexp. lia. Qed.

Lemma bounded_canonical m e :
  bounded prec emax m e = true ->
  e = fexp prec emax (Zpos (digits2_pos m) + e) /\ e <= emax - prec.
Proof.
  unfold bounded, canonical_mantissa.
  intros [H1 H2]%andb_prop. apply Z.eqb_eq in H1. apply Z.leb_le in H2. auto.
Qed.

(** Rounding a sum upwards of a summand. *)
Lemma binary_round_ge (mx : positive) (ex ez : Z) (M : positive) :
  bounded prec emax mx ex = true ->
  emin <= ez -> ez <= ex ->
  Zpos mx * 2 ^ (ex - ez) <= Zpos M ->
  SFleb (S754_finite false mx ex) (binary_round prec emax false M ez) = true.
Proof.
  intros Hb Hez Hle HM.
  apply bounded_canonical in Hb as [Hcan Hmax].
  pose proof (digits2_pos_bounds mx) as [Hx1 Hx2].
  pose proof (digits2_pos_bounds M) as [HM1 HM2].
  set (dx := Zpos (digits2_pos mx)) in *.
  set (dM := Zpos (digits2_pos M)) in *.
  set (e1 := fexp prec emax (dM + ez)).
  assert (HE : dx + ex <= dM + ez).
  { assert (2 ^ (dx - 1 + (ex - ez)) < 2 ^ dM).
    { rewrite Z.pow_add_r by lia.
      eapply Z.le_lt_trans; [|exact HM2].
      etransitivity; [|exact HM].
      apply Z.mul_le_mono_nonneg_r; [apply Z.pow_nonneg; lia | assumption]. }
    apply Z.pow_lt_mono_r_iff in H; lia. }
  assert (He1 : ex <= e1).
  { rewrite Hcan. now apply fexp_mono. }
  unfold binary_round.
  pose proof (shl_align_spec M ez e1) as [Hs1 Hs2]. fold dM. fold e1.
  destruct (shl_align M ez e1) as [mz e0]. cbn [fst snd] in Hs1, Hs2.
  replace (Z.min ez e1) with ez in * by lia. subst e0.
  rewrite Z.sub_diag, Z.pow_0_r, Z.mul_1_r in Hs1. injection Hs1 as ->.
  unfold binary_round_aux.
  destruct (shr_fexp_m prec emax (Zpos M) ez loc_Exact) as [H1 H2]; [lia|].
  destruct (shr_fexp_pos prec emax prec_pos64 (Zpos M) ez loc_Exact) as [H1p _]; [lia|assumption|].
  cbn [Zdigits2] in H1, H2. fold dM in H1, H2. fold e1 in H1, H2.
  replace (Z.max 0 (e1 - ez)) with (e1 - ez) in * by lia.
  destruct (shr_fexp prec emax (Zpos M) ez loc_Exact) as [mrs' e'].
  cbn [fst snd] in H1, H2, H1p. subst e'. replace (ez + (e1 - ez)) with e1 by lia.
  set (m2 := round_nearest_even (shr_m mrs') (loc_of_shr_record mrs')).
  pose proof (round_nearest_even_bounds (shr_m mrs') (loc_of_shr_record mrs')) as Hr.
  fold m2 in Hr.
  destruct (shr_fexp_m prec emax m2 e1 loc_Exact) as [H3 H4]; [lia|].
  destruct (shr_fexp_pos prec emax prec_pos64 m2 e1 loc_Exact) as [H3p _]; [lia|unfold e1, fexp; lia|].
  set (n2 := Z.max 0 (fexp prec emax (Zdigits2 m2 + e1) - e1)) in *.
  destruct (shr_fexp prec emax m2 e1 loc_Exact) as [mrs'' e''].
  cbn [fst snd] in H3, H4, H3p.
  destruct (shr_m mrs'') as [|m3|m3] eqn:Em3; try lia.
  destruct (e'' <=? emax - prec); [|reflexivity].
  unfold SFleb, SFcompare.
  destruct (Z.compare_spec ex e'') as [Heq|Hlt|Hgt]; try reflexivity.
  - (* same exponent: the mantissa did not shrink *)
    assert (Hn2 : n2 = 0) by lia.
    assert (He : e1 = ex) by lia.
    rewrite Hn2, Z.pow_0_r, Z.div_1_r in H3.
    assert (Hmx : Zpos mx <= shr_m mrs').
    { rewrite H1. apply Z.div_le_lower_bound; [apply Z.pow_pos_nonneg; lia|].
      rewrite He. lia. }
    assert (Hcmp : Zpos mx <= Zpos m3) by lia.
    change (Pos.compare_cont Eq mx m3) with (Pos.compare mx m3).
    destruct (Pos.compare_spec mx m3); try reflexivity. lia.
  - lia.
Qed.

Lemma shr_1_clean (mrs : shr_record) :
  0 <= shr_m mrs -> clean mrs -> (2 | shr_m mrs) -> clean (shr_1 mrs).
Proof.
  destruct mrs as [m r s]. cbn [shr_m]. intros Hm [Hr Hs] [k Hk].
  cbn [shr_r shr_s] in Hr, Hs. subst r s.
  destruct m as [|[q|q|]|q]; cbn; try (split; reflexivity); lia.
Qed.

Lemma iter_pos_shr_1_clean (p : positive) (mrs : shr_record) :
  0 <= shr_m mrs -> clean mrs -> (2 ^ Zpos p | shr_m mrs) ->
  clean (iter_pos shr_1 p mrs).
Proof.
  revert mrs. induction p as [p IH|p IH|]; intros mrs Hm Hc Hd;
    cbn [iter_pos].
  - (* 2p+1 *)
    assert (H2 : (2 | shr_m mrs)).
    { eapply Z.divide_trans; [|exact Hd]. exists (2 ^ (Zpos p~1 - 1)).
      replace (Z.pos p~1) with ((Z.pos p~1 - 1) + 1) at 1 by lia.
      rewrite Z.pow_add_r by lia. reflexivity. }
    assert (Hm1 : 0 <= shr_m (shr_1 mrs))
      by (rewrite shr_1_m by assumption; apply Z.div_pos; lia).
    assert (Hd1 : (2 ^ (Zpos p + Zpos p) | shr_m (shr_1 mrs))).
    { rewrite shr_1_m by assumption. destruct Hd as [k Hk].
      exists k. rewrite Hk.
      replace (2 ^ Z.pos p~1) with (2 ^ (Zpos p + Zpos p) * 2).
      - rewrite Z.mul_assoc, Z.div_mul by lia. reflexivity.
      - replace (Z.pos p~1) with ((Zpos p + Zpos p) + 1) by lia.
        rewrite (Z.pow_add_r 2 (Zpos p + Zpos p) 1) by lia. reflexivity. }
    assert (Hdp : (2 ^ Zpos p | shr_m (shr_1 mrs))).
    { eapply Z.divide_trans; [|exact Hd1]. exists (2 ^ Zpos p).
      now rewrite Z.pow_add_r by lia. }
    apply IH.
    + rewrite iter_pos_shr_1_m by assumption. apply Z.div_pos; lia.
    + apply IH; auto using shr_1_clean.
    + rewrite iter_pos_shr_1_m by assumption.
      destruct Hd1 as [k Hk]. exists k. rewrite Hk.
      rewrite Z.pow_add_r, Z.mul_assoc, Z.div_mul by lia. reflexivity.
  - assert (Hd1 : (2 ^ (Zpos p + Zpos p) | shr_m mrs)).
    { replace (Zpos p + Zpos p) with (Zpos p~0) by lia. exact Hd. }
    assert (Hdp : (2 ^ Zpos p | shr_m mrs)).
    { eapply Z.divide_trans; [|exact Hd1]. exists (2 ^ Zpos p).
      now rewrite Z.pow_add_r by lia. }
    apply IH.
    + rewrite iter_pos_shr_1_m by assumption. apply Z.div_pos; lia.
    + apply IH; auto.
    + rewrite iter_pos_shr_1_m by assumption.
      destruct Hd1 as [k Hk]. exists k. rewrite Hk.
      rewrite Z.pow_add_r, Z.mul_assoc, Z.div_mul by lia. reflexivity.
  - apply shr_1_clean; auto.
Qed.

Lemma shr_fexp_exact (m e : Z) :
  0 <= m ->
  (2 ^ Z.max 0 (fexp prec emax (Zdigits2 m + e) - e) | m) ->
  loc_of_shr_record (fst (shr_fexp prec emax m e loc_Exact)) = loc_Exact.
Proof.
  intros Hm Hd. unfold shr_fexp, shr.
  destruct (fexp prec emax (Zdigits2 m + e) - e) as [|p|p]; cbn [fst];
    try reflexivity.
  replace (Z.max 0 (Zpos p)) with (Zpos p) in Hd by lia.
  destruct (iter_pos_shr_1_clean p (shr_record_of_loc m loc_Exact)) as [Hr Hs].
  - cbn. assumption.
  - split; reflexivity.
  - cbn. assumption.
  - destruct (iter_pos shr_1 p _) as [m' r s]. cbn in Hr, Hs. now subst.
Qed.

Lemma Zdigits2_le (m k : Z) : 0 < m -> m < 2 ^ k -> 0 <= k -> Zdigits2 m <= k.
Proof.
  intros Hm Hlt Hk. destruct m as [|p|p]; try lia. cbn [Zdigits2].
  pose proof (digits2_pos_bounds p) as [Hlo _].
  assert (H : 2 ^ (Zpos (digits2_pos p) - 1) < 2 ^ k) by lia.
  apply Z.pow_lt_mono_r_iff in H; lia.
Qed.

(** Rounding a positive number that is at most a float [f] gives at most
    [f]. *)
Lemma binary_round_le (mx : positive) (ex ez : Z) (M : positive) :
  bounded prec emax mx ex = true ->
  emin <= ez -> ez <= ex ->
  Zpos M <= Zpos mx * 2 ^ (ex - ez) ->
  SFleb (binary_round prec emax false M ez) (S754_finite false mx ex) = true.
Proof.
  intros Hb Hez Hle HM.
  apply bounded_canonical in Hb as [Hcan Hmax].
  pose proof (digits2_pos_bounds mx) as [_ Hx2].
  set (dx := Zpos (digits2_pos mx)) in *.
  unfold binary_round.
  pose proof (shl_align_spec M ez
                (fexp prec emax (Zpos (digits2_pos M) + ez))) as [Hs1 Hs2].
  destruct (shl_align M ez _) as [mz e0]. cbn [fst snd] in Hs1, Hs2.
  assert (He0 : emin <= e0 <= ez) by (subst e0; unfold fexp; lia).
  rewrite <- Hs2 in Hs1. clear Hs2.
  (* the aligned mantissa is at most [f] at the scale of [e0] *)
  assert (HN : Zpos mz <= Zpos mx * 2 ^ (ex - e0)).
  { rewrite Hs1. replace (ex - e0) with ((ex - ez) + (ez - e0)) by lia.
    rewrite Z.pow_add_r, Z.mul_assoc by lia.
    apply Z.mul_le_mono_nonneg_r; [apply Z.pow_nonneg; lia | assumption]. }
  clear Hs1 HM.
  unfold binary_round_aux.
  (* first shift *)
  destruct (shr_fexp_m prec emax (Zpos mz) e0 loc_Exact) as [H1 H2]; [lia|].
  destruct (shr_fexp_pos prec emax prec_pos64 (Zpos mz) e0 loc_Exact)
    as [H1p H1e]; [lia|lia|].
  pose proof (shr_fexp_exact (Zpos mz) e0) as Hexact.
  set (n := Z.max 0 (fexp prec emax (Zdigits2 (Zpos mz) + e0) - e0)) in *.
  assert (Hn : 0 <= n) by (unfold n; lia).
  assert (Hd1 : Zdigits2 (Zpos mz) + e0 <= dx + ex).
  { enough (Zdigits2 (Zpos mz) <= dx + ex - e0) by lia.
    apply Zdigits2_le; [lia| |lia].
    eapply Z.le_lt_trans; [exact HN|].
    replace (dx + ex - e0) with (dx + (ex - e0)) by lia.
    rewrite Z.pow_add_r by lia.
    apply Z.mul_lt_mono_pos_r; [apply Z.pow_pos_nonneg; lia | assumption]. }
  assert (He' : e0 + n <= ex).
  { pose proof (fexp_mono _ _ Hd1). unfold n. lia. }
  destruct (shr_fexp prec emax (Zpos mz) e0 loc_Exact) as [mrs' e'].
  cbn [fst snd] in H1, H2, H1p, H1e, Hexact. subst e'.
  set (F1 := Zpos mx * 2 ^ (ex - (e0 + n))).
  assert (HNF : Zpos mz <= F1 * 2 ^ n).
  { unfold F1. rewrite <- Z.mul_assoc, <- Z.pow_add_r by lia.
    replace (ex - (e0 + n) + n) with (ex - e0) by lia. exact HN. }
  set (m2 := round_nearest_even (shr_m mrs') (loc_of_shr_record mrs')).
  assert (Hm2 : 0 < m2 <= F1).
  { pose proof (round_nearest_even_bounds (shr_m mrs')
                  (loc_of_shr_record mrs')) as Hr. fold m2 in Hr.
    split; [lia|].
    assert (Hpow : 0 < 2 ^ n) by (apply Z.pow_pos_nonneg; lia).
    destruct (Z.eq_dec (Zpos mz mod 2 ^ n) 0) as [Hz|Hnz].
    - unfold m2. rewrite Hexact by (lia || (apply Z.mod_divide; lia)).
      cbn [round_nearest_even]. rewrite H1.
      apply Z.div_le_upper_bound; lia.
    - assert (Hlt : Zpos mz < F1 * 2 ^ n).
      { destruct (Z.eq_dec (Zpos mz) (F1 * 2 ^ n)) as [E|E]; [|lia].
        exfalso. apply Hnz. rewrite E. apply Z.mod_mul. lia. }
      assert (shr_m mrs' < F1).
      { rewrite H1. apply Z.div_lt_upper_bound; lia. }
      lia. }
  (* second shift *)
  destruct (shr_fexp_m prec emax m2 (e0 + n) loc_Exact) as [H3 H4]; [lia|].
  destruct (shr_fexp_pos prec emax prec_pos64 m2 (e0 + n) loc_Exact)
    as [H3p _]; [lia|lia|].
  set (n2 := Z.max 0 (fexp prec emax (Zdigits2 m2 + (e0 + n)) - (e0 + n))) in *.
  assert (Hn2 : 0 <= n2) by (unfold n2; lia).
  assert (Hd2 : Zdigits2 m2 + (e0 + n) <= dx + ex).
  { enough (Zdigits2 m2 <= dx + ex - (e0 + n)) by lia.
    apply Zdigits2_le; [lia| |lia].
    eapply Z.le_lt_trans; [apply Hm2|]. unfold F1.
    replace (dx + ex - (e0 + n)) with (dx + (ex - (e0 + n))) by lia.
    rewrite Z.pow_add_r by lia.
    apply Z.mul_lt_mono_pos_r; [apply Z.pow_pos_nonneg; lia | assumption]. }
  assert (He'' : e0 + n + n2 <= ex).
  { pose proof (fexp_mono _ _ Hd2). unfold n2. lia. }
  destruct (shr_fexp prec emax m2 (e0 + n) loc_Exact) as [mrs'' e''].
  cbn [fst snd] in H3, H4, H3p. subst e''.
  destruct (shr_m mrs'') as [|m3|m3] eqn:Em3; try lia.
  replace (e0 + n + n2 <=? emax - prec) with true by (symmetry; apply Z.leb_le; lia).
  unfold SFleb, SFcompare.
  destruct (Z.compare_spec (e0 + n + n2) ex) as [Heq|Hlt|Hgt];
    try reflexivity; [|lia].
  assert (Hpow2 : 0 < 2 ^ n2) by (apply Z.pow_pos_nonneg; lia).
  assert (Hm3 : Zpos m3 * 2 ^ n2 <= m2).
  { rewrite H3. rewrite Z.mul_comm. apply Z.mul_div_le. lia. }
  assert (Hcmp : Zpos m3 <= Zpos mx).
  { apply Z.mul_le_mono_pos_r with (p := 2 ^ n2); [assumption|].
    etransitivity; [exact Hm3|]. etransitivity; [apply Hm2|].
    unfold F1. replace (ex - (e0 + n)) with n2 by lia. lia. }
  change (Pos.compare_cont Eq m3 mx) with (Pos.compare m3 mx).
  destruct (Pos.compare_spec m3 mx); try reflexivity. lia.
Qed.

Lemma binary_round_opp (m : positive) (e : Z) :
  binary_round prec emax true m e = SFopp (binary_round prec emax false m e).
Proof.
  unfold binary_round. destruct shl_align as [mz ez].
  unfold binary_round_aux.
  destruct (shr_fexp prec emax (Zpos mz) ez loc_Exact) as [mrs' e'].
  destruct (shr_fexp prec emax _ e' loc_Exact) as [mrs'' e''].
  destruct (shr_m mrs''); try reflexivity.
  destruct (e'' <=? emax - prec); reflexivity.
Qed.

Lemma SFcompare_opp x y :
  SFcompare (SFopp x) (SFopp y) = SFcompare y x.
Proof.
  rewrite (SFcompare_antisym x y).
  destruct x as [[]|[]| |[] mx ex], y as [[]|[]| |[] my ey];
    try reflexivity; cbn [SFopp negb SFcompare option_map CompOpp];
    destruct (ex ?= ey); try reflexivity;
    destruct (Pos.compare_cont Eq mx my); reflexivity.
Qed.

Lemma SFleb_opp x y : SFleb x y = true -> SFleb (SFopp y) (SFopp x) = true.
Proof. unfold SFleb. now rewrite SFcompare_opp. Qed.

Lemma SFleb_refl x : x <> S754_nan -> SFleb x x = true.
Proof.
  unfold SFleb. destruct x as [[]|[]| |[] mx ex]; try reflexivity;
    try congruence; intros _; cbn [SFcompare];
    rewrite Z.compare_refl; change (Pos.compare_cont Eq mx mx) with (Pos.compare mx mx);
    rewrite Pos.compare_refl; reflexivity.
Qed.

Lemma shl_align_fst (mx : positive) (ex ez : Z) :
  ez <= ex -> Zpos (fst (shl_align mx ex ez)) = Zpos mx * 2 ^ (ex - ez).
Proof.
  intros H. pose proof (shl_align_spec mx ex ez) as [H1 _].
  now replace (Z.min ex ez) with ez in H1 by lia.
Qed.

(** Adding a non-negative number never gives less: rounding is monotone
    and the first summand is a float. *)
Lemma SFadd_ge_l x y :
  valid_binary x = true -> valid_binary y = true ->
  x <> S754_nan -> x <> S754_infinity true ->
  sf_ge0 y = true ->
  SFleb x (SF64add x y) = true.
Proof.
  intros Vx Vy Hnan Hinf Hy.
  destruct y as [sy|[]| |[] my ey]; try discriminate.
  - (* y is a zero *)
    destruct x as [sx|sx| |sx mx ex]; try congruence.
    + destruct sx, sy; reflexivity.
    + now apply SFleb_refl.
    + now apply SFleb_refl.
  - (* y is plus infinity *)
    destruct x as [sx|[]| |[] mx ex]; try congruence; reflexivity.
  - (* y is positive and finite *)
    destruct x as [sx|[]| |sx mx ex]; try congruence; try reflexivity.
    + pose proof (valid_binary_emin _ _ _ Vx) as Hex.
      pose proof (valid_binary_emin _ _ _ Vy) as Hey.
      cbn [SpecFloat.valid_binary] in Vx.
      unfold SF64add, SFadd.
      pose proof (shl_align_fst mx ex (Z.min ex ey) ltac:(lia)) as Hax.
      pose proof (shl_align_fst my ey (Z.min ex ey) ltac:(lia)) as Hay.
      set (ax := fst (shl_align mx ex (Z.min ex ey))) in *.
      set (ay := fst (shl_align my ey (Z.min ex ey))) in *.
      cbn [cond_Zopp].
      destruct sx; cbn [cond_Zopp].
      * (* a negative x *)
        destruct (- Zpos ax + Zpos ay) as [|M|M] eqn:EM;
          cbn [binary_normalize].
        -- reflexivity.
        -- pose proof (binary_round_nonneg M (Z.min ex ey)) as Hr.
           destruct (binary_round prec emax false M (Z.min ex ey))
             as [[]|[]| |[] ? ?]; try discriminate; reflexivity.
        -- rewrite binary_round_opp.
           change (S754_finite true mx ex)
             with (SFopp (S754_finite false mx ex)).
           apply SFleb_opp. apply binary_round_le; try assumption; lia.
      * (* a positive x *)
        change (Zpos ax + Zpos ay) with (Zpos (ax + ay)).
        cbn [binary_normalize].
        apply binary_round_ge; try assumption; lia.
Qed.

(** *** Sums, products and differences of values that are not negative *)

Lemma sf_ge0_ge0n x : sf_ge0 x = true -> sf_ge0n x = true.
Proof. destruct x as [[]|[]| |[] mx ex]; auto. Qed.

Lemma sf_ge0n_not_nan x : sf_ge0n x = true -> x <> S754_nan -> sf_ge0 x = true.
Proof. destruct x as [[]|[]| |[] mx ex]; auto; congruence. Qed.

Lemma SFmul_ge0n x y :
  sf_ge0n x = true -> sf_ge0n y = true -> sf_ge0n (SF64mul x y) = true.
Proof.
  destruct x as [sx|[]| |[] mx ex]; try discriminate; intros _;
  destruct y as [sy|[]| |[] my ey]; try discriminate; intros _;
    try reflexivity.
  apply sf_ge0_ge0n, sf_nonneg_ge0, binary_round_aux_nonneg. lia.
Qed.

Lemma SFadd_ge0n x y :
  sf_ge0n x = true -> sf_ge0n y = true -> sf_ge0n (SF64add x y) = true.
Proof.
  destruct x as [sx|[]| |[] mx ex]; try discriminate; intros _;
  destruct y as [sy|[]| |[] my ey]; try discriminate; intros _;
    try reflexivity.
  - destruct sx, sy; reflexivity.
  - apply sf_ge0_ge0n, sf_nonneg_ge0.
    apply (SFadd_nonneg (S754_finite false mx ex) (S754_finite false my ey));
      reflexivity.
Qed.

Lemma SFmul_ge0_posfin x c :
  sf_ge0 x = true -> sf_posfin c = true -> sf_ge0 (SF64mul x c) = true.
Proof.
  intros Hx Hc. destruct c as [| | |[] mc ec]; try discriminate.
  destruct x as [sx|[]| |[] mx ex]; try discriminate; try reflexivity.
  apply sf_nonneg_ge0, binary_round_aux_nonneg. lia.
Qed.

(** On floats, the order read off exponents and mantissas is the order of
    the values: the smaller float has the smaller aligned mantissa. *)
Lemma SFleb_aligned (m1 m2 : positive) (e1 e2 : Z) :
  bounded prec emax m1 e1 = true -> bounded prec emax m2 e2 = true ->
  SFleb (S754_finite false m1 e1) (S754_finite false m2 e2) = true ->
  Zpos m1 * 2 ^ (e1 - Z.min e1 e2) <= Zpos m2 * 2 ^ (e2 - Z.min e1 e2).
Proof.
  intros [Hc1 _]%bounded_canonical [Hc2 _]%bounded_canonical.
  pose proof (digits2_pos_bounds m1) as [_ Hhi1].
  pose proof (digits2_pos_bounds m2) as [Hlo2 _].
  unfold SFleb, SFcompare.
  destruct (Z.compare_spec e1 e2) as [->|Hlt|Hgt]; try discriminate.
  - change (Pos.compare_cont Eq m1 m2) with (Pos.compare m1 m2).
    destruct (Pos.compare_spec m1 m2) as [->|H|H]; try discriminate; intros _.
    + lia.
    + replace (Z.min e2 e2) with e2 by lia.
      rewrite Z.sub_diag, Z.pow_0_r. lia.
  - intros _. replace (Z.min e1 e2) with e1 by lia.
    rewrite Z.sub_diag, Z.pow_0_r, Z.mul_1_r.
    set (d1 := Zpos (digits2_pos m1)) in *.
    set (d2 := Zpos (digits2_pos m2)) in *.
    assert (Hd1 : d1 <= prec) by (unfold fexp in Hc1; lia).
    assert (Hd2 : d2 = prec) by (unfold fexp, emin, emin in *; lia).
    assert (H1 : Zpos m1 < 2 ^ prec).
    { eapply Z.lt_le_trans; [exact Hhi1|]. apply Z.pow_le_mono_r; lia. }
    rewrite Hd2 in Hlo2.
    assert (H2 : 2 ^ 1 <= 2 ^ (e2 - e1)) by (apply Z.pow_le_mono_r; lia).
    assert (H3 : 2 ^ prec = 2 ^ (prec - 1) * 2 ^ 1) by reflexivity.
    assert (H4 : 0 < 2 ^ (prec - 1)) by (apply Z.pow_pos_nonneg; unfold prec; lia).
    nia.
Qed.

(** [1 - t] is not negative when [t <= 1]. *)
Lemma SFsub_ge0 x t :
  sf_posfin x = true ->
  valid_binary x = true -> valid_binary t = true ->
  SFleb t x = true -> sf_ge0 (SF64sub x t) = true.
Proof.
  intros Hx Vx Vt Hle.
  destruct x as [| | |[] mx ex]; try discriminate.
  destruct t as [st|[]| |st mt et]; try discriminate; try reflexivity.
  unfold SF64sub, SFsub. cbn [cond_Zopp].
  pose proof (valid_binary_emin _ _ _ Vx) as Hex.
  pose proof (valid_binary_emin _ _ _ Vt) as Het.
  pose proof (shl_align_fst mx ex (Z.min ex et) ltac:(lia)) as Hax.
  pose proof (shl_align_fst mt et (Z.min ex et) ltac:(lia)) as Hat.
  set (ax := fst (shl_align mx ex (Z.min ex et))) in *.
  set (at' := fst (shl_align mt et (Z.min ex et))) in *.
  assert (HM : 0 <= Zpos ax - cond_Zopp st (Zpos at')).
  { destruct st; cbn [cond_Zopp]; [lia|].
    cbn [SpecFloat.valid_binary] in Vx, Vt.
    pose proof (SFleb_aligned mt mx et ex Vt Vx Hle) as H.
    rewrite Hax, Hat. rewrite (Z.min_comm ex et). lia. }
  destruct (Zpos ax - cond_Zopp st (Zpos at')) as [|M|M];
    cbn [binary_normalize]; try lia; try reflexivity.
  apply sf_nonneg_ge0, binary_round_nonneg.
Qed.

End SF.

(* ================================================================= *)
(** ** Primitive floats, read through their specification *)

Module F64.
Local Open Scope float_scope.

Lemma Prim2SF_nan_iff x : Prim2SF x = S754_nan <-> is_nan x = true.
Proof.
  unfold Prim2SF. destruct (is_nan x); [tauto|].
  split; [|discriminate].
  destruct (is_zero x); [discriminate|].
  destruct (is_infinity x); [discriminate|].
  destruct (Z.frexp x) as [r e]. destruct shr_fexp as [mrs e'].
  destruct (shr_m mrs); discriminate.
Qed.

Lemma not_nan_Prim2SF x : is_nan x = false -> Prim2SF x <> S754_nan.
Proof. intros H E%Prim2SF_nan_iff. congruence. Qed.

Lemma Prim2SF_zero x : Prim2SF x = S754_zero false -> x = 0.
Proof. intros H. apply Prim2SF_inj. rewrite H. reflexivity. Qed.

Lemma ltb_leb x y : (x <? y) = true -> (x <=? y) = true.
Proof. rewrite ltb_spec, leb_spec. apply SF.SFltb_SFleb. Qed.

Lemma ltb_asym x y : (x <? y) = true -> (y <? x) = false.
Proof. rewrite !ltb_spec. apply SF.SFltb_asym. Qed.

Lemma ltb_false_leb x y :
  is_nan x = false -> is_nan y = false -> (x <? y) = false -> (y <=? x) = true.
Proof.
  rewrite ltb_spec, leb_spec. intros Hx Hy.
  apply SF.SFltb_false_SFleb; now apply not_nan_Prim2SF.
Qed.

Lemma leb_not_nan_r x y : (x <=? y) = true -> is_nan y = false.
Proof.
  rewrite leb_spec. intros H. destruct (is_nan y) eqn:E; [|reflexivity].
  apply Prim2SF_nan_iff in E. rewrite E in H.
  unfold SFleb in H. destruct (Prim2SF x) as [[]|[]| |[] ? ?]; discriminate.
Qed.

Lemma pos_ltb x : sf_pos (Prim2SF x) = true <-> (0 <? x) = true.
Proof.
  rewrite ltb_spec. change (Prim2SF 0) with (S754_zero false).
  now rewrite SF.SFltb_zero_pos.
Qed.

Lemma ge0_leb x : sf_ge0 (Prim2SF x) = true <-> (0 <=? x) = true.
Proof.
  rewrite leb_spec. change (Prim2SF 0) with (S754_zero false).
  now rewrite SF.SFleb_zero_ge0.
Qed.

Lemma leb_posfin_pos c x :
  sf_posfin (Prim2SF c) = true -> (c <=? x) = true ->
  sf_pos (Prim2SF x) = true.
Proof. rewrite leb_spec. apply SF.SFleb_posfin_pos. Qed.

(** A non-negative-class float is [+0] or strictly positive. *)
Lemma nonneg_cases x :
  sf_nonneg (Prim2SF x) = true -> x = 0 \/ (0 <? x) = true.
Proof.
  intros [H|H]%SF.sf_nonneg_cases.
  - left. now apply Prim2SF_zero.
  - right. now apply pos_ltb.
Qed.

(** [max(0, y)] is [+0] or positive, whatever [y] is. *)
Lemma max0_nonneg y : sf_nonneg (Prim2SF (Py.max 0 y)) = true.
Proof.
  unfold Py.max. destruct (0 <? y) eqn:E; [|reflexivity].
  apply SF.sf_pos_nonneg. now apply pos_ltb.
Qed.

(** The clamp [max(0, min(60, x))] lands in [0, 60] for every [x], a NaN
    included (it is sent to 60). *)
Lemma max0_min60_bounds x :
  (0 <=? Py.max 0 (Py.min 60 x)) = true /\
  (Py.max 0 (Py.min 60 x) <=? 60) = true.
Proof.
  unfold Py.max, Py.min.
  destruct (x <? 60) eqn:E1.
  - destruct (0 <? x) eqn:E2.
    + split; now apply ltb_leb.
    + split; reflexivity.
  - change (0 <? 60) with true. cbv iota. split; reflexivity.
Qed.

Lemma ltb_false_both_finite c x s m e :
  Prim2SF c = S754_finite s m e -> is_nan x = false ->
  (x <? c) = false -> (c <? x) = false -> x = c.
Proof.
  intros Hc Hx. rewrite !ltb_spec. intros H1 H2.
  apply Prim2SF_inj. rewrite Hc.
  apply (SF.SFcompare_Eq_finite s m e). rewrite <- Hc.
  apply SF.SFltb_false_both; auto using not_nan_Prim2SF.
  rewrite Hc. discriminate.
Qed.

Lemma nonneg_not_nan x : sf_nonneg (Prim2SF x) = true -> is_nan x = false.
Proof.
  intros H. destruct (is_nan x) eqn:E; [|reflexivity].
  apply Prim2SF_nan_iff in E. rewrite E in H. discriminate.
Qed.

(** On the non-negative class the code's [max(0, min(60, x))] is the
    three-way clamp of the specification. *)
Lemma max0_min60_clamp x :
  sf_nonneg (Prim2SF x) = true -> Py.max 0 (Py.min 60 x) = Spec.clamp x 0 60.
Proof.
  intros Hx. unfold Py.max, Py.min, Spec.clamp.
  assert (H0 : (x <? 0) = false).
  { rewrite ltb_spec. now apply SF.sf_nonneg_not_lt_zero. }
  rewrite H0. destruct (x <? 60) eqn:E1.
  - rewrite (ltb_asym _ _ E1).
    destruct (nonneg_cases x Hx) as [->|H]; [reflexivity | now rewrite H].
  - change (0 <? 60) with true. cbv iota.
    destruct (60 <? x) eqn:E2; [reflexivity|].
    symmetry. eapply (ltb_false_both_finite 60); eauto using nonneg_not_nan.
    reflexivity.
Qed.

End F64.

(* ================================================================= *)
(** ** [Person.step] *)

Section PersonStep.
Local Open Scope float_scope.
Variables (policy : Policy.t) (ms : Person.macro_state) (basic_need : float).
Implicit Types p : Person.t.

Lemma denominator_pos p :
  wage_floored p -> sf_pos (Prim2SF (Person.denominator p)) = true.
Proof.
  intros Hw. unfold Person.denominator.
  rewrite add_spec. apply SF.SFadd_pos_r.
  - rewrite mul_spec. apply SF.SFmul_posfin_r; [|reflexivity].
    apply SF.sf_pos_nonneg.
    now apply (F64.leb_posfin_pos 600).
  - apply Prim2SF_valid.
  - reflexivity.
  - apply Prim2SF_valid.
Qed.

Lemma denominator_nonzero p :
  wage_safe p -> (Person.denominator p =? 0) = false.
Proof.
  intros [Hn|Hw]; rewrite eqb_spec.
  - apply F64.Prim2SF_nan_iff in Hn. unfold Person.denominator.
    rewrite add_spec, mul_spec, Hn. reflexivity.
  - apply denominator_pos in Hw.
    destruct (Prim2SF (Person.denominator p)) as [[]|[]| |[] ? ?];
      try discriminate; reflexivity.
Qed.

(** The whole of [step] once the division is known not to raise. *)
Lemma step_unfold p :
  wage_safe p ->
  Person.step policy ms basic_need p =
  Ok (let target_hours :=
        Person.gap policy basic_need / Person.denominator p in
      let work_hours' :=
        Py.max 0 (Py.min 60 (Person.smoothed p target_hours)) in
      let income_total :=
        Person.hourly_wage p * work_hours' * 4 + Policy.ubi_amount policy in
      Person.mk (Person.id p) (Person.age p) (Person.hourly_wage p)
        work_hours'
        (Person.saving p
         + income_total * (1 - Policy.income_tax_rate policy) * 0.2)
        (Person.household_id p)
        (5 + 0.00001 * income_total - 0.05 * Py.max 0 (work_hours' - 40))).
Proof.
  intros Hw. unfold Person.step, Py.div.
  rewrite (denominator_nonzero p Hw). reflexivity.
Qed.

Lemma step_total p :
  wage_safe p -> exists p', Person.step policy ms basic_need p = Ok p'.
Proof. intros Hw. rewrite step_unfold by assumption. eauto. Qed.

(** [step] raises nothing but [ZeroDivisionError]. *)
Lemma step_raises p e :
  Person.step policy ms basic_need p = Raise e -> e = Py.ZeroDivisionError.
Proof.
  unfold Person.step, Py.div.
  destruct (Person.denominator p =? 0); cbn; congruence.
Qed.

(** What [step] leaves alone, and the bounds of the new [work_hours];
    these hold for every input on which it returns. *)
Lemma step_frame p p' :
  Person.step policy ms basic_need p = Ok p' ->
  Person.id p' = Person.id p /\
  Person.age p' = Person.age p /\
  Person.hourly_wage p' = Person.hourly_wage p /\
  Person.household_id p' = Person.household_id p /\
  hours_bounded p'.
Proof.
  unfold Person.step, Py.div.
  destruct (Person.denominator p =? 0); cbn; [discriminate|].
  intros [= <-]. cbn. repeat split; try reflexivity;
    apply F64.max0_min60_bounds.
Qed.

Lemma gap_nonneg : sf_nonneg (Prim2SF (Person.gap policy basic_need)) = true.
Proof. apply F64.max0_nonneg. Qed.

Lemma target_hours_nonneg p :
  wage_floored p ->
  (Person.gap policy basic_need <? infinity) = true ->
  sf_nonneg
    (Prim2SF (Person.gap policy basic_need / Person.denominator p)) = true.
Proof.
  intros Hw Hg. rewrite div_spec. apply SF.SFdiv_nonneg.
  - apply gap_nonneg.
  - now apply denominator_pos.
  - rewrite ltb_spec in Hg.
    rewrite (SF.SFltb_inf_not_inf _ gap_nonneg Hg). reflexivity.
Qed.

Lemma smoothed_nonneg p target_hours :
  (0 <=? Person.work_hours p) = true ->
  sf_nonneg (Prim2SF target_hours) = true ->
  sf_nonneg (Prim2SF (Person.smoothed p target_hours)) = true.
Proof.
  intros Hh Ht. unfold Person.smoothed.
  rewrite add_spec, !mul_spec. apply SF.SFadd_ge0_nonneg.
  - apply SF.SFmul_posfin_l_ge0; [reflexivity|]. now apply F64.ge0_leb.
  - apply SF.SFmul_posfin_l; [reflexivity | assumption].
Qed.

End PersonStep.

(** C1.  On every person state with a floored wage and non-negative hours
    (the states a simulation can reach), and for every policy and basic
    need whose gap is finite, [Person.step] returns without raising, and
    the state it returns is exactly the one the five-step rule of section
    4.2 prescribes: the new [work_hours], [saving] and [happiness] as
    computed there, every other field unchanged. *)
Theorem person_step_refines_spec
    (policy : Policy.t) (ms : Person.macro_state) (basic_need : float)
    (p : Person.t) :
  wage_floored p ->
  (0 <=? Person.work_hours p)%float = true ->
  (Person.gap policy basic_need <? infinity)%float = true ->
  Person.step policy ms basic_need p = Ok (Spec.step policy basic_need p).
Proof.
  intros Hw Hh Hg.
  rewrite step_unfold by (right; exact Hw).
  unfold Spec.step, Spec.epsilon. cbv zeta.
  fold (Person.denominator p). fold (Person.gap policy basic_need).
  fold (Person.smoothed p
          (Person.gap policy basic_need / Person.denominator p)%float).
  rewrite F64.max0_min60_clamp; [reflexivity|].
  apply smoothed_nonneg; [assumption|].
  now apply target_hours_nonneg.
Qed.

(** The scenario of the specification: one person with an hourly wage of
    1000 under the default policy.  After one step the engine holds the
    values one computes by hand from the five formulas. *)
Lemma person_step_refines_spec_witness :
  wage_floored (Person.mk 0 30 1000 40 0 0 5) /\
  (0 <=? 40)%float = true /\
  (Person.gap Policy.default 150000 <? infinity)%float = true /\
  Person.step Policy.default [] 150000 (Person.mk 0 30 1000 40 0 0 5) =
  Ok (Person.mk 0 30 1000 31.749999999062499 36319.999999400003 0
        7.2699999999625007).
Proof.
  refine (conj eq_refl (conj eq_refl (conj eq_refl _))).
  exact (person_step_refines_spec Policy.default [] 150000
           (Person.mk 0 30 1000 40 0 0 5) eq_refl eq_refl eq_refl).
Defined.

(* ================================================================= *)
(** ** Population construction *)

Lemma ids_S n : ids (S n) = ids n ++ [Z.of_nat n].
Proof. unfold ids. rewrite seq_S, map_app. reflexivity. Qed.

Lemma In_ids k n : In k (ids n) <-> (0 <= k < Z.of_nat n)%Z.
Proof.
  unfold ids. rewrite in_map_iff. split.
  - intros (i & <- & Hi%in_seq). lia.
  - intros H. exists (Z.to_nat k). rewrite in_seq. lia.
Qed.

Lemma NoDup_ids n : NoDup (ids n).
Proof.
  unfold ids. induction n as [|n IH]; [constructor|].
  rewrite seq_S, map_app. cbn [map Nat.add].
  apply NoDup_app; repeat split; auto.
  - repeat constructor. intros [].
  - intros k (i & <- & Hi%in_seq)%in_map_iff [E|[]]. lia.
Qed.

Lemma length_ids n : length (ids n) = n.
Proof. unfold ids. now rewrite length_map, length_seq. Qed.

Lemma set_ids_new {V : Type} (d : Py.dict V) (n : nat) (v : V) :
  Py.keys d = ids n ->
  Py.set d (Z.of_nat n) v = d ++ [(Z.of_nat n, v)].
Proof.
  intros Hk. apply keys_set_new. rewrite Hk, In_ids. lia.
Qed.

Section Construction.
Context {G : Type} {RS : RandomState G}.

(** A property every freshly made person has is a property of the whole
    population. *)
Variable Q : Person.t -> Prop.
Hypothesis Q_new : forall pid hid g, Q (fst (Environment.new_person pid hid g)).

Lemma add_members_spec (k : nat) (hid : Z) :
  forall (persons : Py.dict Person.t) (member_ids : list Z) (n : nat) (g : G),
  Py.keys persons = ids n ->
  Forall Q (Py.values persons) ->
  let '(persons', member_ids', pid', _) :=
    Environment.add_members k hid (persons, member_ids, Z.of_nat n, g) in
  Py.keys persons' = ids (n + k) /\
  member_ids' = member_ids ++ map Z.of_nat (seq n k) /\
  pid' = Z.of_nat (n + k) /\
  Forall Q (Py.values persons').
Proof.
  induction k as [|k IH]; intros persons member_ids n g Hk HQ.
  - cbn. rewrite Nat.add_0_r, app_nil_r. auto.
  - cbn [Environment.add_members].
    pose proof (Q_new (Z.of_nat n) hid g) as Hnew.
    destruct (Environment.new_person (Z.of_nat n) hid g) as [p g'].
    cbn [fst] in Hnew.
    rewrite (set_ids_new _ _ _ Hk).
    replace (Z.of_nat n + 1)%Z with (Z.of_nat (S n)) by lia.
    assert (Hk' : Py.keys (persons ++ [(Z.of_nat n, p)]) = ids (S n)).
    { unfold Py.keys in *. rewrite map_app, Hk, ids_S. reflexivity. }
    assert (HQ' : Forall Q (Py.values (persons ++ [(Z.of_nat n, p)]))).
    { unfold Py.values in *. rewrite map_app. apply Forall_app.
      split; [assumption | repeat constructor; assumption]. }
    specialize (IH (persons ++ [(Z.of_nat n, p)])
                   (member_ids ++ [Z.of_nat n]) (S n) g' Hk' HQ').
    destruct Environment.add_members as [[[persons' mids'] pid'] g''].
    destruct IH as (H1 & H2 & H3 & H4).
    rewrite H1, H2, H3, <- app_assoc. cbn [seq map app].
    replace (n + S k)%nat with (S n + k)%nat by lia. auto.
Qed.

Lemma household_ok_mono (n n' : nat) kv :
  (n <= n')%nat -> household_ok n kv -> household_ok n' kv.
Proof.
  intros Hle (H1 & H2 & H3). repeat split; auto.
  intros pid Hin. specialize (H3 pid Hin). rewrite In_ids in *. lia.
Qed.

Lemma add_households_spec (m pph : nat) :
  forall (persons : Py.dict Person.t) (households : Py.dict Household.t)
         (n c : nat) (g : G),
  Py.keys persons = ids n ->
  Py.keys households = ids c ->
  Forall Q (Py.values persons) ->
  Forall (household_ok n) households ->
  let '(persons', households', _, _) :=
    Environment.add_households m pph (Z.of_nat c)
      (persons, households, Z.of_nat n, g) in
  Py.keys persons' = ids (n + m * pph) /\
  Py.keys households' = ids (c + m) /\
  Forall Q (Py.values persons') /\
  Forall (household_ok (n + m * pph)) households'.
Proof.
  induction m as [|m IH]; intros persons households n c g Hp Hh HQ Hok.
  - cbn. rewrite !Nat.add_0_r. auto.
  - cbn [Environment.add_households].
    pose proof (add_members_spec pph (Z.of_nat c) persons [] n g Hp HQ) as Hm.
    destruct Environment.add_members as [[[persons1 mids] pid1] g1].
    destruct Hm as (Hp1 & -> & -> & HQ1). cbn [app].
    rewrite (set_ids_new _ _ _ Hh).
    replace (Z.of_nat c + 1)%Z with (Z.of_nat (S c)) by lia.
    set (h := Household.new (Z.of_nat c) (map Z.of_nat (seq n pph))).
    assert (Hh' : Py.keys (households ++ [(Z.of_nat c, h)]) = ids (S c)).
    { unfold Py.keys in *. rewrite map_app, Hh, ids_S. reflexivity. }
    assert (Hok' : Forall (household_ok (n + pph))
                     (households ++ [(Z.of_nat c, h)])).
    { apply Forall_app. split.
      - eapply Forall_impl; [|exact Hok].
        intros kv. apply household_ok_mono. lia.
      - repeat constructor. cbn. intros pid (i & <- & Hi%in_seq)%in_map_iff.
        rewrite In_ids. lia. }
    specialize (IH persons1 (households ++ [(Z.of_nat c, h)]) (n + pph)%nat
                  (S c) g1 Hp1 Hh' HQ1 Hok').
    destruct Environment.add_households as [[[persons2 households2] pid2] g2].
    replace (n + S m * pph)%nat with (n + pph + m * pph)%nat by lia.
    replace (c + S m)%nat with (S c + m)%nat by lia.
    exact IH.
Qed.

Lemma init_spec (n_households persons_per_household : Z) (g : G) :
  let env := fst (Environment.init n_households persons_per_household g) in
  Environment.policy env = Policy.default /\
  Py.keys (Environment.persons env) =
    ids (Z.to_nat n_households * Z.to_nat persons_per_household) /\
  Py.keys (Environment.households env) = ids (Z.to_nat n_households) /\
  Forall Q (Py.values (Environment.persons env)) /\
  Forall (household_ok
            (Z.to_nat n_households * Z.to_nat persons_per_household))
         (Environment.households env).
Proof.
  unfold Environment.init.
  pose proof (add_households_spec (Z.to_nat n_households)
                (Z.to_nat persons_per_household) [] [] 0 0 g
                eq_refl eq_refl (Forall_nil _) (Forall_nil _)) as H.
  change (Z.of_nat 0) with 0%Z in H.
  destruct Environment.add_households as [[[persons households] pid] g'].
  cbn. tauto.
Qed.

End Construction.

(* ================================================================= *)
(** ** [Household.aggregate] *)

Lemma aggregate_frame persons h h' :
  Household.aggregate persons h = Ok h' ->
  Household.id h' = Household.id h /\
  Household.member_ids h' = Household.member_ids h /\
  Household.poverty_line h' = Household.poverty_line h.
Proof.
  unfold Household.aggregate.
  intros (terms & _ & [= <-])%bind_Ok_inv. auto.
Qed.

(** The income [aggregate] stores is the sum of the members' labor incomes,
    each member read from the dictionary it was given. *)
Lemma aggregate_income persons h h' :
  Household.aggregate persons h = Ok h' ->
  exists members,
    Forall2 (fun pid p => Py.get persons pid = Ok p)
            (Household.member_ids h) members /\
    Household.income h' = Py.sum (map Household.labor_income members).
Proof.
  unfold Household.aggregate.
  intros (terms & Hterms & [= <-])%bind_Ok_inv. cbn.
  apply mapM_Ok_Forall2 in Hterms.
  enough (exists members,
             Forall2 (fun pid p => Py.get persons pid = Ok p)
                     (Household.member_ids h) members /\
             terms = map Household.labor_income members)
    as (members & H1 & ->) by eauto.
  induction Hterms as [|pid y pids ys Hy _ (members & IH1 & IH2)].
  - exists []. split; constructor.
  - apply bind_Ok_inv in Hy as (p & Hp & [= <-]).
    exists (p :: members). split; [constructor; assumption|].
    cbn [map]. congruence.
Qed.

Lemma aggregate_total persons h :
  (forall pid, In pid (Household.member_ids h) -> In pid (Py.keys persons)) ->
  exists h', Household.aggregate persons h = Ok h'.
Proof.
  intros H. unfold Household.aggregate.
  destruct (mapM_total
              (fun pid => p <- Py.get persons pid ;; Ok (Household.labor_income p))
              (Household.member_ids h)) as [terms Ht].
  - intros pid Hin. destruct (get_key_Ok persons pid (H pid Hin)) as [p Hp].
    rewrite Hp. cbn. eauto.
  - rewrite Ht. cbn. eauto.
Qed.

Lemma aggregate_raises persons h e :
  Household.aggregate persons h = Raise e ->
  exists pid, In pid (Household.member_ids h) /\
              ~ In pid (Py.keys persons) /\ e = Py.KeyError pid.
Proof.
  unfold Household.aggregate.
  destruct (Py.mapM _ _) as [terms|e'] eqn:E; cbn; [discriminate|].
  intros [= ->]. revert E.
  induction (Household.member_ids h) as [|pid pids IH]; cbn;
    [discriminate|].
  destruct (Py.get persons pid) as [p|e'] eqn:Hp; cbn.
  - destruct (Py.mapM _ pids) as [ys|e'] eqn:E'; cbn; [discriminate|].
    intros [= ->]. destruct (IH eq_refl) as (pid' & ? & ? & ?). eauto.
  - intros [= ->]. exists pid. repeat split; auto.
    + intros Hin. apply get_key_Ok in Hin as [v Hv]. congruence.
    + now apply get_raises_KeyError in Hp.
Qed.

(* ================================================================= *)
(** ** [Environment.step] *)

Section EnvStep.
Variable Q : Person.t -> Prop.
Hypothesis Q_safe : forall p, Q p -> wage_safe p.
Hypothesis Q_step : forall p p',
  Q p -> Person.step Policy.default [] Environment.basic_need p = Ok p' -> Q p'.

Lemma step_inv n c env env' :
  env_inv Q n c env -> Environment.step env = Ok env' -> env_inv Q n c env'.
Proof.
  intros (Hpol & Hp & Hh & HQ & Hok). unfold Environment.step.
  intros (persons' & Hps & H)%bind_Ok_inv.
  apply bind_Ok_inv in H as (households' & Hhs & [= <-]).
  unfold env_inv.
  cbn [Environment.policy Environment.persons Environment.households].
  repeat split.
  - assumption.
  - now rewrite (update_values_keys _ _ _ Hps).
  - now rewrite (update_values_keys _ _ _ Hhs).
  - rewrite Forall_forall. intros p' Hin.
    apply in_map_iff in Hin as ([k p''] & <- & Hin). cbn.
    destruct (update_values_In _ _ _ _ _ Hps Hin) as (p & Hin' & Hstep).
    rewrite Hpol in Hstep. eapply Q_step; [|exact Hstep].
    rewrite Forall_forall in HQ. apply HQ.
    change p with (snd (k, p)). now apply in_map.
  - rewrite Forall_forall. intros [k h'] Hin.
    destruct (update_values_In _ _ _ _ _ Hhs Hin) as (h & Hin' & Hagg).
    rewrite Forall_forall in Hok. specialize (Hok _ Hin').
    destruct Hok as (H1 & H2 & H3).
    apply aggregate_frame in Hagg as (E1 & E2 & E3).
    unfold household_ok. cbn in *. rewrite E1, E2, E3. auto.
Qed.

Lemma step_total_inv n c env :
  env_inv Q n c env -> exists env', Environment.step env = Ok env'.
Proof.
  intros (Hpol & Hp & Hh & HQ & Hok). unfold Environment.step.
  destruct (update_values_total
              (Person.step (Environment.policy env) [] Environment.basic_need)
              (Environment.persons env)) as [persons' Hps].
  { intros k p Hin. apply step_total, Q_safe.
    rewrite Forall_forall in HQ. apply HQ.
    change p with (snd (k, p)). now apply in_map. }
  rewrite Hps. cbn.
  destruct (update_values_total (Household.aggregate persons')
              (Environment.households env)) as [households' Hhs].
  { intros k h Hin. apply aggregate_total.
    rewrite Forall_forall in Hok. destruct (Hok _ Hin) as (_ & _ & H3).
    intros pid Hpid. rewrite (update_values_keys _ _ _ Hps), Hp. auto. }
  rewrite Hhs. cbn. eauto.
Qed.

End EnvStep.

(* ================================================================= *)
(** ** Reachable environments *)

(** What construction establishes and every step keeps: a wage on which
    the division cannot fail, and hours within the clamp. *)
Lemma new_person_safe {G : Type} {RS : RandomState G} pid hid (g : G) :
  (fun p => wage_safe p /\ hours_bounded p)
    (fst (Environment.new_person pid hid g)).
Proof.
  unfold Environment.new_person.
  destruct (randint 20 60 g) as [a g1]. destruct (normal 1500 500 g1) as [w g2].
  cbn [fst]. split; [|split; reflexivity].
  unfold wage_safe, wage_floored. cbn [Person.hourly_wage].
  destruct (w <? 600)%float eqn:E; [right; reflexivity|].
  destruct (is_nan w) eqn:En; [left; reflexivity|right].
  now apply F64.ltb_false_leb.
Qed.

(** With a sampler that returns numbers (never a NaN) the floor holds. *)
Lemma new_person_floored {G : Type} {RS : RandomState G} pid hid (g : G) :
  (forall g', is_nan (fst (normal 1500 500 g')) = false) ->
  (fun p => wage_floored p /\ hours_bounded p)
    (fst (Environment.new_person pid hid g)).
Proof.
  intros Hnan. unfold Environment.new_person.
  destruct (randint 20 60 g) as [a g1].
  specialize (Hnan g1).
  destruct (normal 1500 500 g1) as [w g2].
  cbn [fst] in *. split; [|split; reflexivity].
  unfold wage_floored. cbn [Person.hourly_wage].
  destruct (w <? 600)%float eqn:E; [reflexivity|].
  now apply F64.ltb_false_leb.
Qed.

Lemma step_keeps_safe policy ms basic_need p p' :
  wage_safe p /\ hours_bounded p ->
  Person.step policy ms basic_need p = Ok p' ->
  wage_safe p' /\ hours_bounded p'.
Proof.
  intros [Hw _] (_ & _ & Hwage & _ & Hh)%step_frame. split; [|assumption].
  unfold wage_safe, wage_floored in *. now rewrite Hwage.
Qed.

Lemma step_keeps_floored policy ms basic_need p p' :
  wage_floored p /\ hours_bounded p ->
  Person.step policy ms basic_need p = Ok p' ->
  wage_floored p' /\ hours_bounded p'.
Proof.
  intros [Hw _] (_ & _ & Hwage & _ & Hh)%step_frame. split; [|assumption].
  unfold wage_floored in *. now rewrite Hwage.
Qed.

Section Reachable.
Variable Q : Person.t -> Prop.
Hypothesis Q_step : forall p p',
  Q p -> Person.step Policy.default [] Environment.basic_need p = Ok p' -> Q p'.

Lemma reachable_from_inv n c env0 env :
  env_inv Q n c env0 -> reachable_from env0 env -> env_inv Q n c env.
Proof.
  intros H0. induction 1 as [|env env' _ IH Hstep]; [assumption|].
  eapply step_inv; eauto.
Qed.

Context {G : Type} {RS : RandomState G}.
Hypothesis Q_new : forall pid hid (g : G),
  Q (fst (Environment.new_person pid hid g)).

Lemma init_inv (n_households persons_per_household : Z) (g : G) :
  env_inv Q (Z.to_nat n_households * Z.to_nat persons_per_household)
    (Z.to_nat n_households)
    (fst (Environment.init n_households persons_per_household g)).
Proof. apply (init_spec Q Q_new). Qed.

Lemma reachable_inv env :
  reachable env -> exists n c, env_inv Q n c env.
Proof.
  intros (nh & pph & g & H). eexists _, _.
  eapply reachable_from_inv; [apply init_inv | exact H].
Qed.

End Reachable.

(** The stand-in generator returns numbers. *)
Lemma Cycle_normal_not_nan (g : nat) :
  is_nan (fst (@normal nat Cycle.rs 1500 500 g)) = false.
Proof.
  cbn [normal Cycle.rs Cycle.normal fst].
  pose proof (Nat.mod_upper_bound g 8 ltac:(discriminate)) as Hlt.
  generalize dependent (g mod 8)%nat. intros k Hlt.
  do 8 (destruct k as [|k]; [reflexivity|]). lia.
Qed.

(* ================================================================= *)
(** ** Bounds on hours and wage (C4) *)

(** C4.  With a sampler that returns numbers, every person of every
    environment of a run (the constructed one and the one after each
    step) has [0 <= work_hours <= 60] and [hourly_wage >= 600]; and
    [Person.step] never changes the wage, whatever its arguments. *)
Theorem hours_and_wage_bounds {G : Type} {RS : RandomState G}
    (env : Environment.t) (pid : Z) (p : Person.t) :
  (forall g : G, is_nan (fst (normal 1500 500 g)) = false) ->
  reachable env ->
  In (pid, p) (Environment.persons env) ->
  ((0 <=? Person.work_hours p)%float = true /\
   (Person.work_hours p <=? 60)%float = true /\
   (600 <=? Person.hourly_wage p)%float = true) /\
  (forall policy ms basic_need p',
     Person.step policy ms basic_need p = Ok p' ->
     Person.hourly_wage p' = Person.hourly_wage p).
Proof.
  intros Hnan Hreach Hin. split.
  - destruct (reachable_inv (fun p => wage_floored p /\ hours_bounded p)
                (step_keeps_floored _ _ _)
                (fun pid hid g => new_person_floored pid hid g Hnan)
                env Hreach) as (n & c & _ & _ & _ & HQ & _).
    rewrite Forall_forall in HQ.
    destruct (HQ p) as (Hw & H0 & H60); [|auto].
    change p with (snd (pid, p)). now apply in_map.
  - intros policy ms basic_need p' Hstep.
    now apply step_frame in Hstep as (_ & _ & Hwage & _).
Qed.

(** One household of two under the stand-in generator: its first person
    drew a wage of 550 and holds the floor of 600. *)
Lemma hours_and_wage_bounds_witness :
  (forall g : nat, is_nan (fst (@normal nat Cycle.rs 1500 500 g)) = false) /\
  @reachable nat Cycle.rs (fst (@Environment.init nat Cycle.rs 1 2 0%nat)) /\
  In (0%Z, Person.mk 0 20 600 40 0 0 5)
     (Environment.persons (fst (@Environment.init nat Cycle.rs 1 2 0%nat))) /\
  ((0 <=? 40)%float = true /\ (40 <=? 60)%float = true /\
   (600 <=? 600)%float = true).
Proof.
  refine (conj Cycle_normal_not_nan (conj _ (conj (or_introl eq_refl) _))).
  - exists 1%Z, 2%Z, 0%nat. apply reachable_start.
  - exact (proj1 (@hours_and_wage_bounds nat Cycle.rs
             (fst (@Environment.init nat Cycle.rs 1 2 0%nat)) 0%Z
             (Person.mk 0 20 600 40 0 0 5)
             Cycle_normal_not_nan
             (ex_intro _ 1%Z (ex_intro _ 2%Z (ex_intro _ 0%nat
                (reachable_start _))))
             (or_introl eq_refl))).
Defined.

(* ================================================================= *)
(** ** Lookup failures in aggregation (C8) *)

(** C8.  [Household.aggregate] raises exactly when some member id is not a
    key of the dictionary it is given, and what it raises then is a
    [KeyError].  In every environment of a run the member ids of every
    household are keys of the persons dictionary, so aggregation of any
    household succeeds there, and so does the whole step. *)
Theorem aggregate_KeyError_unreachable :
  (forall persons h,
     (exists e, Household.aggregate persons h = Raise e) <->
     (exists pid, In pid (Household.member_ids h) /\
                  ~ In pid (Py.keys persons))) /\
  (forall persons h e,
     Household.aggregate persons h = Raise e -> exists pid, e = Py.KeyError pid) /\
  (forall (G : Type) (RS : RandomState G) env,
     reachable env ->
     members_present env /\
     (forall hid h, In (hid, h) (Environment.households env) ->
        exists h', Household.aggregate (Environment.persons env) h = Ok h') /\
     (exists env', Environment.step env = Ok env')).
Proof.
  split; [|split].
  - intros persons h. split.
    + intros (e & (pid & H1 & H2 & _)%aggregate_raises). eauto.
    + intros (pid & Hin & Hnot).
      destruct (Household.aggregate persons h) as [h'|e] eqn:E; [|eauto].
      exfalso. apply Hnot.
      unfold Household.aggregate in E.
      apply bind_Ok_inv in E as (terms & Hterms & _).
      destruct (mapM_Ok_all _ _ _ Hterms pid Hin) as (y & Hy & _).
      apply bind_Ok_inv in Hy as (p & Hp & _).
      eapply get_Ok_key; eauto.
  - intros persons h e (pid & _ & _ & ->)%aggregate_raises. eauto.
  - intros G RS env Hreach.
    destruct (reachable_inv (fun p => wage_safe p /\ hours_bounded p)
                (step_keeps_safe _ _ _) new_person_safe env Hreach)
      as (n & c & Hinv).
    assert (Hpresent : members_present env).
    { destruct Hinv as (_ & Hp & _ & _ & Hok).
      intros hid h Hin pid Hpid. rewrite Forall_forall in Hok.
      destruct (Hok _ Hin) as (_ & _ & H3). rewrite Hp. auto. }
    split; [assumption|]. split.
    + intros hid h Hin. apply aggregate_total. eauto.
    + eapply step_total_inv; [|exact Hinv]. now intros p [? _].
Qed.

(** Under the stand-in generator, the household built first aggregates
    its two members without a lookup failure. *)
Lemma aggregate_KeyError_unreachable_witness :
  @reachable nat Cycle.rs (fst (@Environment.init nat Cycle.rs 1 2 0%nat)) /\
  exists h',
    Household.aggregate
      (Environment.persons (fst (@Environment.init nat Cycle.rs 1 2 0%nat)))
      (Household.new 0 [0%Z; 1%Z]) = Ok h'.
Proof.
  assert (Hr : @reachable nat Cycle.rs
                 (fst (@Environment.init nat Cycle.rs 1 2 0%nat))).
  { exists 1%Z, 2%Z, 0%nat. apply reachable_start. }
  split; [exact Hr|].
  exact (proj1 (proj2 (proj2 (proj2 aggregate_KeyError_unreachable)
                         nat Cycle.rs _ Hr))
           0%Z (Household.new 0 [0%Z; 1%Z]) (or_introl eq_refl)).
Defined.

(* ================================================================= *)
(** ** Aggregation consistency (C2) *)

(** C2.  After a step that returns, the persons of the new environment are
    the stepped persons of the old one, and the households of the new
    environment are those of the old one, entry by entry and in the same
    order: each keeps its key, id, member list and poverty line, and its
    new income is the sum, over its member ids in order, of
    [hourly_wage * work_hours * 4] read from the new persons: labor income
    only, of the states after the update. *)
Theorem household_income_after_step (env env' : Environment.t) :
  Environment.step env = Ok env' ->
  Py.update_values
    (Person.step (Environment.policy env) [] Environment.basic_need)
    (Environment.persons env) = Ok (Environment.persons env') /\
  Forall2
    (fun kv kv' =>
       fst kv' = fst kv /\
       Household.id (snd kv') = Household.id (snd kv) /\
       Household.member_ids (snd kv') = Household.member_ids (snd kv) /\
       Household.poverty_line (snd kv') = Household.poverty_line (snd kv) /\
       exists members,
         Forall2 (fun pid p => Py.get (Environment.persons env') pid = Ok p)
                 (Household.member_ids (snd kv)) members /\
         Household.income (snd kv') =
           Py.sum (map (fun p =>
                          (Person.hourly_wage p * Person.work_hours p * 4)
                            %float) members))
    (Environment.households env) (Environment.households env').
Proof.
  unfold Environment.step.
  intros (persons' & Hps & H)%bind_Ok_inv.
  apply bind_Ok_inv in H as (households' & Hhs & [= <-]).
  cbn [Environment.persons Environment.households]. split; [assumption|].
  apply update_values_Forall2 in Hhs.
  eapply Forall2_impl; [|exact Hhs].
  intros kv kv' [Hk Hagg]. split; [assumption|].
  destruct (aggregate_income _ _ _ Hagg) as (members & H1 & H2).
  apply aggregate_frame in Hagg as (E1 & E2 & E3). eauto 8.
Qed.

(** One household of two under the stand-in generator, with wages 600 and
    1500: after the step the members work 34.25 and 30.5 hours (up to
    rounding) and the household's income is the labor income of the two,
    [600 * 34.25 * 4 + 1500 * 30.5 * 4], a little under 265200. *)
Lemma household_income_after_step_witness :
  exists env',
    Environment.step (fst (@Environment.init nat Cycle.rs 1 2 0%nat)) = Ok env' /\
    Environment.households env' =
      [(0%Z, Household.mk 0 [0%Z; 1%Z] 265199.99999124999 200000)] /\
    (0 + 600 * 34.249999997395832 * 4 + 1500 * 30.499999999583334 * 4
     =? 265199.99999124999)%float = true /\
    Forall2
      (fun kv kv' =>
         fst kv' = fst kv /\
         Household.id (snd kv') = Household.id (snd kv) /\
         Household.member_ids (snd kv') = Household.member_ids (snd kv) /\
         Household.poverty_line (snd kv') = Household.poverty_line (snd kv) /\
         exists members,
           Forall2 (fun pid p => Py.get (Environment.persons env') pid = Ok p)
                   (Household.member_ids (snd kv)) members /\
           Household.income (snd kv') =
             Py.sum (map (fun p =>
                            (Person.hourly_wage p * Person.work_hours p * 4)
                              %float) members))
      (Environment.households
         (fst (@Environment.init nat Cycle.rs 1 2 0%nat)))
      (Environment.households env').
Proof.
  eexists. split; [vm_compute; reflexivity|].
  refine (conj eq_refl (conj eq_refl _)).
  refine (proj2 (household_income_after_step
                   (fst (@Environment.init nat Cycle.rs 1 2 0%nat)) _ _)).
  vm_compute. reflexivity.
Defined.

(* ================================================================= *)
(** ** The runner (C3) *)

Lemma rate_of_1000_is_fraction (j : nat) :
  (j <= 1000)%nat -> is_fraction (Py.of_nat j / Py.of_nat 1000)%float = true.
Proof.
  intros Hj.
  assert (H : forallb (fun j => is_fraction (Py.of_nat j / Py.of_nat 1000)%float)
                (seq 0 1001) = true) by (vm_compute; reflexivity).
  rewrite forallb_forall in H. apply H, in_seq. lia.
Qed.

Lemma poor_count_le (env : Environment.t) :
  (poor_count env <= length (Environment.households env))%nat.
Proof.
  unfold poor_count, Py.values.
  etransitivity; [apply filter_length_le|]. now rewrite length_map.
Qed.

Lemma env_inv_households_length Q n c env :
  env_inv Q n c env -> length (Environment.households env) = c.
Proof.
  intros (_ & _ & Hh & _).
  rewrite <- (length_map fst). fold (Py.keys (Environment.households env)).
  now rewrite Hh, length_ids.
Qed.

Lemma reachable_from_step_l (env env1 env' : Environment.t) :
  Environment.step env = Ok env1 -> reachable_from env1 env' ->
  reachable_from env env'.
Proof.
  intros Hstep. induction 1 as [|env2 env3 _ IH Hstep'].
  - eapply reachable_step; [apply reachable_start | exact Hstep].
  - eapply reachable_step; eauto.
Qed.

Lemma steps_reachable (n : nat) :
  forall env env', steps n env = Ok env' -> reachable_from env env'.
Proof.
  induction n as [|n IH]; intros env env'; cbn [steps].
  - intros [= <-]. apply reachable_start.
  - intros (env1 & Hstep & Hrest)%bind_Ok_inv.
    eapply reachable_from_step_l; eauto.
Qed.

Lemma simulate_acc (n : nat) :
  forall env acc r, simulate n env acc = Ok r -> exists rs, r = acc ++ rs.
Proof.
  induction n as [|n IH]; intros env acc r; cbn [simulate].
  - intros [= <-]. exists []. now rewrite app_nil_r.
  - intros (env1 & _ & H)%bind_Ok_inv.
    apply bind_Ok_inv in H as (rate & _ & H).
    destruct (IH _ _ _ H) as [rs ->]. exists (rate :: rs).
    now rewrite <- app_assoc.
Qed.

(** A longer loop does what the shorter one did, and then goes on. *)
Lemma simulate_prefix (n m : nat) :
  forall env acc r r',
  simulate n env acc = Ok r -> simulate (n + m) env acc = Ok r' ->
  exists rest, r' = r ++ rest.
Proof.
  induction n as [|n IH]; intros env acc r r'; cbn [simulate Nat.add].
  - intros [= <-]. apply simulate_acc.
  - intros (env1 & Hstep & H)%bind_Ok_inv.
    apply bind_Ok_inv in H as (rate & Hrate & H).
    rewrite Hstep. cbn [Py.bind]. rewrite Hrate. cbn [Py.bind].
    now apply IH.
Qed.

Lemma simulate_measures (n : nat) :
  forall env acc r,
  simulate n env acc = Ok r ->
  exists rs, r = acc ++ rs /\ length rs = n /\
    forall t, (t < n)%nat ->
      exists env_t, steps (S t) env = Ok env_t /\
                    poverty_rate env_t = Ok (nth t rs 0%float).
Proof.
  induction n as [|n IH]; intros env acc r; cbn [simulate].
  - intros [= <-]. exists []. rewrite app_nil_r.
    repeat split; auto. intros t Ht. lia.
  - intros (env1 & Hstep & H)%bind_Ok_inv.
    apply bind_Ok_inv in H as (rate & Hrate & H).
    destruct (IH _ _ _ H) as (rs & -> & Hlen & Hm).
    exists (rate :: rs). rewrite <- app_assoc. cbn [app length].
    repeat split; auto.
    intros [|t] Ht.
    + exists env1. cbn [steps nth]. rewrite Hstep. auto.
    + destruct (Hm t ltac:(lia)) as (env_t & Hsteps & Hr).
      exists env_t. split; [|exact Hr].
      change (steps (S (S t)) env)
        with (env' <- Environment.step env ;; steps (S t) env').
      rewrite Hstep. exact Hsteps.
Qed.

(** The households counted poor are those whose income is below their
    poverty line. *)
Lemma poor_count_filter (env : Environment.t) :
  poor_count env =
  length (filter (fun kv => (Household.income (snd kv) <?
                             Household.poverty_line (snd kv))%float)
            (Environment.households env)).
Proof.
  unfold poor_count, Py.values.
  induction (Environment.households env) as [|kv hs IH]; [reflexivity|].
  cbn [map filter]. unfold Household.is_poor at 1.
  destruct (Household.income (snd kv) <? Household.poverty_line (snd kv))%float;
    cbn [length]; now rewrite IH.
Qed.

Section Simulate.
Variable Q : Person.t -> Prop.
Hypothesis Q_safe : forall p, Q p -> wage_safe p.
Hypothesis Q_step : forall p p',
  Q p -> Person.step Policy.default [] Environment.basic_need p = Ok p' -> Q p'.

Lemma simulate_spec (k n : nat) :
  forall env acc,
  env_inv Q n 1000 env ->
  exists rates,
    simulate k env acc = Ok (acc ++ rates) /\
    length rates = k /\
    Forall (fun r => is_fraction r = true) rates.
Proof.
  induction k as [|k IH]; intros env acc Hinv; cbn [simulate].
  - exists []. rewrite app_nil_r. auto.
  - destruct (step_total_inv Q Q_safe n 1000 env Hinv) as [env' Hstep].
    rewrite Hstep. cbn [Py.bind].
    pose proof (step_inv Q Q_step n 1000 env env' Hinv Hstep) as Hinv'.
    unfold poverty_rate.
    pose proof (poor_count_le env') as Hle.
    rewrite (env_inv_households_length _ _ _ _ Hinv') in *.
    cbn [Py.truediv Py.bind].
    destruct (IH env' (acc ++ [Py.of_nat (poor_count env') / Py.of_nat 1000]%float)
                Hinv') as (rates & H1 & H2 & H3).
    exists ((Py.of_nat (poor_count env') / Py.of_nat 1000)%float :: rates).
    rewrite H1, <- app_assoc. cbn [app length]. repeat split; auto.
    constructor; [|assumption]. now apply rate_of_1000_is_fraction.
Qed.

End Simulate.

(** C3.  For positive [years] and [steps_per_year], and from every
    generator state, [run_sim] returns (it raises nothing): a sequence of
    exactly [years * steps_per_year] poverty rates, each of them a float
    between 0 and 1.  Entry [t] is the rate of month [t]: on the
    environment after [t + 1] steps, the number of households whose income
    is below their poverty line, divided by the number of households,
    which is 1000. *)
Theorem run_sim_length_and_range {G : Type} {RS : RandomState G}
    (years steps_per_year : Z) (g : G) :
  (0 < years)%Z -> (0 < steps_per_year)%Z ->
  exists rates,
    fst (run_sim years steps_per_year g) = Ok rates /\
    Z.of_nat (length rates) = (years * steps_per_year)%Z /\
    Forall (fun r => (0 <=? r)%float = true /\ (r <=? 1)%float = true) rates /\
    forall t, (t < length rates)%nat ->
      exists env_t,
        steps (S t) (fst (Environment.init 1000 2 g)) = Ok env_t /\
        length (Environment.households env_t) = 1000%nat /\
        nth t rates 0%float =
          (Py.of_nat
             (length (filter (fun kv => (Household.income (snd kv) <?
                                         Household.poverty_line (snd kv)))
                        (Environment.households env_t)))
           / Py.of_nat (length (Environment.households env_t)))%float.
Proof.
  intros Hy Hs. unfold run_sim.
  pose proof (init_inv (fun p => wage_safe p /\ hours_bounded p)
                new_person_safe 1000 2 g) as Hinv.
  destruct (Environment.init 1000 2 g) as [env g']. cbn [fst] in *.
  destruct (simulate_spec (fun p => wage_safe p /\ hours_bounded p)
              (fun p H => proj1 H) (step_keeps_safe _ _ _)
              (Z.to_nat (years * steps_per_year)) _ env [] Hinv)
    as (rates & H1 & H2 & H3).
  exists rates. cbn [app] in H1. repeat split.
  - assumption.
  - rewrite H2. lia.
  - eapply Forall_impl; [|exact H3].
    intros r Hr. unfold is_fraction in Hr.
    now apply andb_prop in Hr.
  - intros t Ht.
    destruct (simulate_measures _ _ _ _ H1) as (rs & Heq & Hlen & Hm).
    cbn [app] in Heq. subst rs. rewrite Hlen in Ht.
    destruct (Hm t Ht) as (env_t & Hsteps & Hrate).
    exists env_t. split; [exact Hsteps|].
    pose proof (reachable_from_inv (fun p => wage_safe p /\ hours_bounded p)
                  (step_keeps_safe _ _ _) _ _ _ env_t Hinv
                  (steps_reachable _ _ _ Hsteps)) as Hinv_t.
    pose proof (env_inv_households_length _ _ _ _ Hinv_t) as Hl.
    change (Z.to_nat 1000) with 1000%nat in Hl.
    split; [exact Hl|].
    unfold poverty_rate in Hrate. rewrite <- poor_count_filter, Hl.
    rewrite Hl in Hrate. cbn [Py.truediv] in Hrate.
    now injection Hrate as <-.
Qed.

(** One year of three steps under the stand-in generator, whose households
    earn alternately (600, 1500) and (2000, 3000) an hour: nobody is poor
    in the first two months, and in the third the hours of the first kind
    have fallen far enough to put half of the households below the line. *)
Lemma run_sim_length_and_range_witness :
  (0 < 1)%Z /\ (0 < 3)%Z /\
  fst (@run_sim nat Cycle.rs 1 3 0%nat) = Ok [0; 0; 0.5]%float /\
  exists rates,
    fst (@run_sim nat Cycle.rs 1 3 0%nat) = Ok rates /\
    Z.of_nat (length rates) = (1 * 3)%Z /\
    Forall (fun r => (0 <=? r)%float = true /\ (r <=? 1)%float = true) rates /\
    forall t, (t < length rates)%nat ->
      exists env_t,
        steps (S t) (fst (@Environment.init nat Cycle.rs 1000 2 0%nat)) =
          Ok env_t /\
        length (Environment.households env_t) = 1000%nat /\
        nth t rates 0%float =
          (Py.of_nat
             (length (filter (fun kv => (Household.income (snd kv) <?
                                         Household.poverty_line (snd kv)))
                        (Environment.households env_t)))
           / Py.of_nat (length (Environment.households env_t)))%float.
Proof.
  refine (conj eq_refl (conj eq_refl (conj _ _))).
  - vm_compute. reflexivity.
  - exact (@run_sim_length_and_range nat Cycle.rs 1 3 0%nat eq_refl eq_refl).
Defined.

(* ================================================================= *)
(** ** The fixed configuration of a run (C10) *)

(** C10.  Whatever [years] and [steps_per_year] are, [run_sim] simulates
    the environment built by [Environment(1000, 2)], which does not depend
    on them.  In that environment and in every environment the run reaches
    from it, the policy is the default one (UBI 100000, tax rate 0.2),
    there are 2000 persons and 1000 households, and every household has
    poverty line 200000; and every step passes 150000 as the basic need. *)
Theorem run_sim_fixed_configuration {G : Type} {RS : RandomState G}
    (years steps_per_year : Z) (g : G) :
  run_sim years steps_per_year g =
    (simulate (Z.to_nat (years * steps_per_year))
       (fst (Environment.init 1000 2 g)) [],
     snd (Environment.init 1000 2 g)) /\
  (forall env, reachable_from (fst (Environment.init 1000 2 g)) env ->
     Environment.policy env = Policy.mk 100000 0.2 /\
     length (Environment.persons env) = 2000%nat /\
     length (Environment.households env) = 1000%nat /\
     (forall hid h, In (hid, h) (Environment.households env) ->
        Household.poverty_line h = 200000%float)) /\
  (forall env,
     Environment.step env =
       (persons' <- Py.update_values
                      (Person.step (Environment.policy env) [] 150000)
                      (Environment.persons env) ;;
        households' <- Py.update_values (Household.aggregate persons')
                         (Environment.households env) ;;
        Ok (Environment.mk (Environment.policy env) persons' households'))).
Proof.
  split; [|split].
  - unfold run_sim. now destruct (Environment.init 1000 2 g).
  - intros env Hreach.
    pose proof (reachable_from_inv (fun p => wage_safe p /\ hours_bounded p)
                  (step_keeps_safe _ _ _) _ _ _ env
                  (init_inv _ new_person_safe 1000 2 g) Hreach) as Hinv.
    pose proof (env_inv_households_length _ _ _ _ Hinv) as Hlen.
    destruct Hinv as (Hpol & Hp & _ & _ & Hok).
    repeat split.
    + exact Hpol.
    + rewrite <- (length_map fst). fold (Py.keys (Environment.persons env)).
      rewrite Hp, length_ids. reflexivity.
    + exact Hlen.
    + intros hid h Hin. rewrite Forall_forall in Hok.
      now destruct (Hok _ Hin) as (_ & H2 & _).
  - reflexivity.
Qed.

(* ================================================================= *)
(** ** Order independence of the person update (C6) *)

Section DictUpdate.
Context {V : Type}.
Implicit Types (d : Py.dict V) (k : Z) (v : V).

Lemma keys_set_present d k v :
  In k (Py.keys d) -> Py.keys (Py.set d k v) = Py.keys d.
Proof.
  induction d as [|[k' v'] d IH]; cbn; [contradiction|].
  destruct (Z.eqb_spec k' k) as [->|Hne]; cbn; [reflexivity|].
  intros [?|Hin]; [contradiction|]. f_equal. now apply IH.
Qed.

Lemma get_set_other d k k' v :
  k <> k' -> Py.get (Py.set d k v) k' = Py.get d k'.
Proof.
  intros Hne. induction d as [|[k0 v0] d IH]; cbn.
  - destruct (Z.eqb_spec k k'); [contradiction | reflexivity].
  - destruct (Z.eqb_spec k0 k) as [->|Hne0]; cbn.
    + destruct (Z.eqb_spec k k'); [contradiction | reflexivity].
    + now rewrite IH.
Qed.

Lemma set_set_comm d k1 k2 v1 v2 :
  k1 <> k2 -> In k1 (Py.keys d) -> In k2 (Py.keys d) ->
  Py.set (Py.set d k1 v1) k2 v2 = Py.set (Py.set d k2 v2) k1 v1.
Proof.
  intros Hne. induction d as [|[k0 v0] d IH]; cbn; [contradiction|].
  intros H1 H2.
  destruct (Z.eqb_spec k0 k1) as [E1|Hne1];
    destruct (Z.eqb_spec k0 k2) as [E2|Hne2]; cbn.
  - congruence.
  - destruct (Z.eqb_spec k0 k2); [contradiction|].
    destruct (Z.eqb_spec k0 k1); [reflexivity | contradiction].
  - destruct (Z.eqb_spec k0 k1); [contradiction|].
    destruct (Z.eqb_spec k0 k2); [reflexivity | contradiction].
  - destruct (Z.eqb_spec k0 k1); [contradiction|].
    destruct (Z.eqb_spec k0 k2); [contradiction|].
    f_equal. apply IH; tauto.
Qed.

Lemma get_app_notin (pre d : Py.dict V) k :
  ~ In k (Py.keys pre) -> Py.get (pre ++ d) k = Py.get d k.
Proof.
  induction pre as [|[k0 v0] pre IH]; cbn; [reflexivity|].
  intros Hnot. destruct (Z.eqb_spec k0 k) as [->|_]; [tauto|].
  apply IH. tauto.
Qed.

Lemma set_app_notin (pre d : Py.dict V) k v v' :
  ~ In k (Py.keys pre) ->
  Py.set (pre ++ (k, v) :: d) k v' = pre ++ (k, v') :: d.
Proof.
  induction pre as [|[k0 v0] pre IH]; cbn.
  - now rewrite Z.eqb_refl.
  - intros Hnot. destruct (Z.eqb_spec k0 k) as [->|_]; [tauto|].
    f_equal. apply IH. tauto.
Qed.

Variable f : V -> Py.res V.

Lemma visit_keys d d' k : visit f d k = Ok d' -> Py.keys d' = Py.keys d.
Proof.
  unfold visit. intros (v & Hv & H)%bind_Ok_inv.
  apply bind_Ok_inv in H as (v' & _ & [= <-]).
  apply keys_set_present. eapply get_Ok_key; eauto.
Qed.

(** All the exceptions [f] can raise are one and the same. *)
Variable e0 : Py.exn.
Hypothesis f_raises : forall v e, f v = Raise e -> e = e0.

Lemma visit_comm d k1 k2 :
  k1 <> k2 -> In k1 (Py.keys d) -> In k2 (Py.keys d) ->
  (d1 <- visit f d k1 ;; visit f d1 k2) =
  (d2 <- visit f d k2 ;; visit f d2 k1).
Proof.
  intros Hne H1 H2. unfold visit.
  destruct (get_key_Ok d k1 H1) as [v1 Hv1].
  destruct (get_key_Ok d k2 H2) as [v2 Hv2].
  rewrite Hv1, Hv2. cbn [Py.bind].
  destruct (f v1) as [v1'|e1] eqn:E1, (f v2) as [v2'|e2] eqn:E2;
    cbn [Py.bind];
    rewrite ?get_set_other, ?Hv1, ?Hv2 by congruence; cbn [Py.bind];
    rewrite ?E1, ?E2; cbn [Py.bind].
  - f_equal. now apply set_set_comm.
  - reflexivity.
  - reflexivity.
  - now rewrite (f_raises _ _ E1), (f_raises _ _ E2).
Qed.

Lemma visit_all_Permutation (order order' : list Z) :
  Permutation order order' ->
  forall d, NoDup order -> (forall k, In k order -> In k (Py.keys d)) ->
  visit_all f order d = visit_all f order' d.
Proof.
  induction 1 as [|x l l' Hperm IH|x y l|l l' l'' H1 IH1 H2 IH2];
    intros d Hnd Hin.
  - reflexivity.
  - cbn [visit_all]. destruct (visit f d x) as [d'|e] eqn:E; [|reflexivity].
    cbn [Py.bind]. apply IH.
    + now inversion Hnd.
    + intros k Hk. rewrite (visit_keys _ _ _ E). apply Hin. now right.
  - cbn [visit_all].
    assert (Hne : y <> x).
    { inversion Hnd as [|? ? Hnot _]. intros ->. apply Hnot. now left. }
    pose proof (visit_comm d y x Hne (Hin y (or_introl eq_refl))
                  (Hin x (or_intror (or_introl eq_refl)))) as Hc.
    destruct (visit f d y) as [d1|e1], (visit f d x) as [d2|e2];
      cbn [Py.bind] in *.
    + destruct (visit f d1 x), (visit f d2 y); cbn [Py.bind];
        congruence.
    + destruct (visit f d1 x); cbn [Py.bind]; congruence.
    + destruct (visit f d2 y); cbn [Py.bind]; congruence.
    + congruence.
  - rewrite IH1 by assumption. apply IH2.
    + eapply Permutation_NoDup; eauto.
    + intros k Hk. apply Hin. eapply Permutation_in; [|exact Hk].
      now apply Permutation_sym.
Qed.

(** Visiting the keys in insertion order is the loop over [values()]. *)
Lemma visit_all_keys (pre d : Py.dict V) :
  NoDup (Py.keys (pre ++ d)) ->
  visit_all f (Py.keys d) (pre ++ d) =
  (d' <- Py.update_values f d ;; Ok (pre ++ d')).
Proof.
  revert pre. induction d as [|[k v] d IH]; intros pre Hnd.
  - reflexivity.
  - cbn [Py.keys map fst visit_all]. unfold visit.
    assert (Hnot : ~ In k (Py.keys pre)).
    { unfold Py.keys in *. rewrite map_app in Hnd. cbn [map fst] in Hnd.
      apply NoDup_remove_2 in Hnd. intros Hin. apply Hnd.
      apply in_or_app. now left. }
    rewrite (get_app_notin pre _ k Hnot). cbn [Py.get].
    rewrite Z.eqb_refl. cbn [Py.bind].
    unfold Py.update_values. cbn [Py.mapM snd fst].
    destruct (f v) as [v'|e]; cbn [Py.bind]; [|reflexivity].
    rewrite (set_app_notin pre d k v v' Hnot).
    change (pre ++ (k, v') :: d) with (pre ++ [(k, v')] ++ d).
    rewrite app_assoc.
    fold (Py.keys d). rewrite IH.
    + unfold Py.update_values.
      destruct (Py.mapM _ d) as [d'|e]; cbn [Py.bind]; [|reflexivity].
      now rewrite <- app_assoc.
    + unfold Py.keys in *. rewrite <- app_assoc, map_app in *.
      exact Hnd.
Qed.

End DictUpdate.

Lemma bind_Ok_r {A : Type} (m : Py.res A) : (x <- m ;; Ok x) = m.
Proof. now destruct m. Qed.

(** C6.  The person update does not depend on the order of the persons:
    visiting the person ids in any permutation of the dictionary's order,
    and aggregating the households afterwards, gives the environment (or
    raises the exception) that [Environment.step] gives.  And [step] does
    not read its [macro_state] argument. *)
Theorem step_order_independent (env : Environment.t) (order : list Z) :
  NoDup (Py.keys (Environment.persons env)) ->
  Permutation order (Py.keys (Environment.persons env)) ->
  step_in_order order env = Environment.step env /\
  (forall policy ms ms' basic_need p,
     Person.step policy ms basic_need p = Person.step policy ms' basic_need p).
Proof.
  intros Hnd Hperm. split; [|reflexivity].
  unfold step_in_order, Environment.step.
  rewrite (visit_all_Permutation _ Py.ZeroDivisionError
             (step_raises _ _ _) _ _ Hperm).
  - rewrite <- (app_nil_l (Environment.persons env)) at 2.
    rewrite visit_all_keys by assumption.
    now rewrite bind_Ok_r.
  - eapply Permutation_NoDup; [apply Permutation_sym|]; eassumption.
  - intros k Hk. eapply Permutation_in; eassumption.
Qed.

(** Two persons under the stand-in generator, the second updated first. *)
Lemma step_order_independent_witness :
  NoDup (Py.keys (Environment.persons
                    (fst (@Environment.init nat Cycle.rs 1 2 0%nat)))) /\
  Permutation [1%Z; 0%Z]
    (Py.keys (Environment.persons
                (fst (@Environment.init nat Cycle.rs 1 2 0%nat)))) /\
  step_in_order [1%Z; 0%Z] (fst (@Environment.init nat Cycle.rs 1 2 0%nat)) =
  Environment.step (fst (@Environment.init nat Cycle.rs 1 2 0%nat)).
Proof.
  refine (conj (NoDup_ids 2) (conj (perm_swap 0%Z 1%Z []) _)).
  exact (proj1 (step_order_independent
                  (fst (@Environment.init nat Cycle.rs 1 2 0%nat))
                  [1%Z; 0%Z] (NoDup_ids 2) (perm_swap 0%Z 1%Z []))).
Defined.

(* ================================================================= *)
(** ** Determinism (C9) *)

Section DrawFacts.
Context {G : Type} {RS : RandomState G}.

Lemma length_draws (n : nat) (g : G) : length (draws n g) = n.
Proof. revert g. induction n; intros g; cbn; auto. Qed.

Lemma draws_add (n m : nat) (g : G) :
  draws (n + m) g = draws n g ++ draws m (after_draws n g).
Proof.
  revert g. induction n as [|n IH]; intros g; cbn; [reflexivity|].
  now rewrite IH.
Qed.

Lemma after_draws_add (n m : nat) (g : G) :
  after_draws (n + m) g = after_draws m (after_draws n g).
Proof. revert g. induction n as [|n IH]; intros g; cbn; auto. Qed.

(** A new person is made of the two samples and of nothing else the
    generator holds. *)
Lemma new_person_draw pid hid (g : G) :
  Environment.new_person pid hid g =
  (Person.mk pid (fst (fst (draw g)))
     (if (snd (fst (draw g)) <? 600)%float then 600%float
      else snd (fst (draw g)))
     40 0 hid 5,
   snd (draw g)).
Proof.
  unfold Environment.new_person, draw.
  destruct (randint 20 60 g) as [a g1]. now destruct (normal 1500 500 g1).
Qed.

Lemma add_members_generator (k : nat) hid persons member_ids pid (g : G) :
  snd (Environment.add_members k hid (persons, member_ids, pid, g)) =
  after_draws k g.
Proof.
  revert persons member_ids pid g.
  induction k as [|k IH]; intros; cbn [Environment.add_members after_draws];
    [reflexivity|].
  rewrite new_person_draw. apply IH.
Qed.

Lemma add_households_generator (m pph : nat) hid persons households pid (g : G) :
  snd (Environment.add_households m pph hid (persons, households, pid, g)) =
  after_draws (m * pph) g.
Proof.
  revert hid persons households pid g.
  induction m as [|m IH]; intros;
    cbn [Environment.add_households]; [reflexivity|].
  pose proof (add_members_generator pph hid persons [] pid g) as Hg.
  destruct Environment.add_members as [[[persons1 mids] pid1] g1].
  cbn [snd] in Hg. subst g1. rewrite IH.
  cbn [Nat.mul]. now rewrite after_draws_add.
Qed.

Lemma init_fst (n_households persons_per_household : Z) (g : G) :
  fst (Environment.init n_households persons_per_household g) =
  let r := fst (Environment.add_households (Z.to_nat n_households)
                  (Z.to_nat persons_per_household) 0%Z ([], [], 0%Z, g)) in
  Environment.mk Policy.default (fst (fst r)) (snd (fst r)).
Proof.
  unfold Environment.init.
  now destruct Environment.add_households as [[[persons households] pid] g'].
Qed.

End DrawFacts.

Lemma app_eq_same_length {A : Type} (l1 l1' l2 l2' : list A) :
  l1 ++ l2 = l1' ++ l2' -> length l1 = length l1' -> l1 = l1' /\ l2 = l2'.
Proof.
  revert l1'. induction l1 as [|x l1 IH]; intros [|y l1']; cbn;
    try discriminate; [auto|].
  intros [= -> H] [= Hlen]. destruct (IH _ H Hlen) as [-> ->]. auto.
Qed.

Section TwoGenerators.
Context {G1 G2 : Type} {RS1 : RandomState G1} {RS2 : RandomState G2}.

Lemma add_members_det (k : nat) hid :
  forall persons member_ids pid (g1 : G1) (g2 : G2),
  draws k g1 = draws k g2 ->
  fst (Environment.add_members k hid (persons, member_ids, pid, g1)) =
  fst (Environment.add_members k hid (persons, member_ids, pid, g2)).
Proof.
  induction k as [|k IH]; intros persons member_ids pid g1 g2 Hd;
    cbn [Environment.add_members]; [reflexivity|].
  cbn [draws] in Hd. injection Hd as Hhd Htl.
  rewrite !new_person_draw, Hhd. now apply IH.
Qed.

Lemma add_households_det (m pph : nat) :
  forall hid persons households pid (g1 : G1) (g2 : G2),
  draws (m * pph) g1 = draws (m * pph) g2 ->
  fst (Environment.add_households m pph hid (persons, households, pid, g1)) =
  fst (Environment.add_households m pph hid (persons, households, pid, g2)).
Proof.
  induction m as [|m IH]; intros hid persons households pid g1 g2 Hd;
    cbn [Environment.add_households]; [reflexivity|].
  cbn [Nat.mul] in Hd. rewrite !draws_add in Hd.
  apply app_eq_same_length in Hd as [Hd1 Hd2];
    [|now rewrite !length_draws].
  pose proof (add_members_det pph hid persons [] pid g1 g2 Hd1) as Hm.
  pose proof (add_members_generator pph hid persons [] pid g1) as Hg1.
  pose proof (add_members_generator pph hid persons [] pid g2) as Hg2.
  destruct (Environment.add_members pph hid (persons, [], pid, g1))
    as [[[persons1 mids1] pid1] g1'].
  destruct (Environment.add_members pph hid (persons, [], pid, g2))
    as [[[persons2 mids2] pid2] g2'].
  cbn [fst snd] in Hm, Hg1, Hg2. injection Hm as -> -> ->. subst g1' g2'.
  now apply IH.
Qed.

(** Construction is a function of the samples drawn. *)
Lemma init_det (n_households persons_per_household : Z) (g1 : G1) (g2 : G2) :
  draws (Z.to_nat n_households * Z.to_nat persons_per_household) g1 =
  draws (Z.to_nat n_households * Z.to_nat persons_per_household) g2 ->
  fst (Environment.init n_households persons_per_household g1) =
  fst (Environment.init n_households persons_per_household g2).
Proof.
  intros Hd. rewrite !init_fst.
  exact (f_equal (fun r => Environment.mk Policy.default (fst (fst r))
                             (snd (fst r)))
           (add_households_det _ _ 0%Z [] [] 0%Z g1 g2 Hd)).
Qed.

End TwoGenerators.

(** C9.  Two runs whose generators deliver the same age and wage samples
    for the 2000 persons (as two runs from one seed do) return the same
    result, float for float: the generator is consulted for these samples
    only, and everything after construction is a function of the
    constructed environment.  The generators need not even be of the same
    kind. *)
Theorem run_sim_deterministic
    {G1 G2 : Type} {RS1 : RandomState G1} {RS2 : RandomState G2}
    (years steps_per_year : Z) (g1 : G1) (g2 : G2) :
  draws 2000 g1 = draws 2000 g2 ->
  fst (Environment.init 1000 2 g1) = fst (Environment.init 1000 2 g2) /\
  fst (run_sim years steps_per_year g1) = fst (run_sim years steps_per_year g2).
Proof.
  intros Hd.
  assert (Henv : fst (Environment.init 1000 2 g1) =
                 fst (Environment.init 1000 2 g2)) by now apply init_det.
  split; [assumption|].
  unfold run_sim.
  destruct (Environment.init 1000 2 g1) as [env1 g1'].
  destruct (Environment.init 1000 2 g2) as [env2 g2'].
  cbn [fst] in *. now subst env2.
Qed.

(** Two runs of the stand-in generator from different states that deliver
    the same samples (its period is 40). *)
Lemma run_sim_deterministic_witness :
  @draws nat Cycle.rs 2000 0%nat = @draws nat Cycle.rs 2000 40%nat /\
  fst (@run_sim nat Cycle.rs 1 3 0%nat) = fst (@run_sim nat Cycle.rs 1 3 40%nat).
Proof.
  assert (Hd : @draws nat Cycle.rs 2000 0%nat = @draws nat Cycle.rs 2000 40%nat)
    by (vm_compute; reflexivity).
  exact (conj Hd
           (proj2 (@run_sim_deterministic nat nat Cycle.rs Cycle.rs 1 3
                     0%nat 40%nat Hd))).
Defined.

(* ================================================================= *)
(** ** A UBI that covers the basic need (C7) *)

Section Decay.
Local Open Scope float_scope.

Lemma decay_iter t : decay t = Nat.iter t (fun w => 0.7 * w) 40.
Proof.
  induction t as [|t IH]; [reflexivity|].
  cbn [decay]. rewrite IH. reflexivity.
Qed.

Lemma orbit_In (n t : nat) (w : float) :
  (t <= n)%nat -> In (Nat.iter t (fun w => 0.7 * w) w) (orbit n w).
Proof.
  revert t w. induction n as [|n IH]; intros t w Ht.
  - replace t with 0%nat by lia. now left.
  - destruct t as [|t]; [now left|]. right.
    rewrite Nat.iter_succ_r. apply IH. lia.
Qed.

(** From step 2096 on the product is stuck at the smallest positive
    float: 0.7 times it rounds back to it. *)
Lemma decay_stuck t : (2096 <= t)%nat -> decay t = min_subnormal.
Proof.
  intros Ht. replace t with ((t - 2096) + 2096)%nat by lia.
  induction (t - 2096)%nat as [|k IH].
  - vm_compute. reflexivity.
  - cbn [Nat.add decay]. rewrite IH. reflexivity.
Qed.

(** A decidable property that holds along the orbit up to the fixed point
    holds at every step. *)
Lemma decay_forall (P : float -> bool) :
  forallb P (orbit 2096 40) = true -> forall t, P (decay t) = true.
Proof.
  intros H t. rewrite forallb_forall in H.
  destruct (Nat.le_gt_cases t 2096) as [Hle|Hgt].
  - apply H. rewrite decay_iter. now apply orbit_In.
  - rewrite decay_stuck by lia. rewrite <- (decay_stuck 2096) by lia.
    apply H. rewrite decay_iter. now apply orbit_In.
Qed.

Lemma decay_no_clamp t :
  Py.max 0 (Py.min 60 (0.7 * decay t + 0.3 * 0)) = decay (S t).
Proof.
  apply Leibniz.eqb_spec.
  apply (decay_forall
           (fun w => Leibniz.eqb (Py.max 0 (Py.min 60 (0.7 * w + 0.3 * 0)))
                       (0.7 * w))).
  vm_compute. reflexivity.
Qed.

Lemma decay_nonincreasing t : (decay (S t) <=? decay t) = true.
Proof.
  apply (decay_forall (fun w => 0.7 * w <=? w)). vm_compute. reflexivity.
Qed.

Lemma decay_positive t : (0 <? decay t) = true.
Proof.
  apply (decay_forall (fun w => 0 <? w)). vm_compute. reflexivity.
Qed.

Lemma zero_div_pos den : sf_pos (Prim2SF den) = true -> 0 / den = 0.
Proof.
  intros H. apply Prim2SF_inj. rewrite div_spec.
  change (Prim2SF 0) with (S754_zero false).
  destruct (Prim2SF den) as [[]|[]| |[] ? ?]; try discriminate; reflexivity.
Qed.

Variable policy : Policy.t.
Hypothesis ubi_covers : Policy.ubi_amount policy = 150000.

Lemma gap_zero : Person.gap policy Environment.basic_need = 0.
Proof. unfold Person.gap. rewrite ubi_covers. reflexivity. Qed.

Lemma step_ubi_covers p t :
  wage_floored p -> Person.work_hours p = decay t ->
  Person.gap policy Environment.basic_need / Person.denominator p = 0 /\
  Person.step policy [] Environment.basic_need p =
  Ok (Person.mk (Person.id p) (Person.age p) (Person.hourly_wage p)
        (decay (S t))
        (Person.saving p
         + (Person.hourly_wage p * decay (S t) * 4 + 150000)
           * (1 - Policy.income_tax_rate policy) * 0.2)
        (Person.household_id p)
        (5 + 0.00001 * (Person.hourly_wage p * decay (S t) * 4 + 150000)
         - 0.05 * Py.max 0 (decay (S t) - 40))).
Proof.
  intros Hw Hh.
  assert (Ht : Person.gap policy Environment.basic_need / Person.denominator p
               = 0).
  { rewrite gap_zero. apply zero_div_pos. now apply denominator_pos. }
  split; [exact Ht|].
  rewrite step_unfold by (right; exact Hw). cbv zeta.
  rewrite Ht. unfold Person.smoothed. rewrite Hh, decay_no_clamp.
  now rewrite ubi_covers.
Qed.

Lemma person_steps_decay p t :
  wage_floored p -> Person.work_hours p = 40 ->
  exists p_t,
    person_steps policy Environment.basic_need t p = Ok p_t /\
    Person.work_hours p_t = decay t /\
    Person.hourly_wage p_t = Person.hourly_wage p.
Proof.
  intros Hw Hh. induction t as [|t (p_t & Hsteps & Hhours & Hwage)].
  - exists p. auto.
  - cbn [person_steps]. rewrite Hsteps. cbn [Py.bind].
    assert (Hw' : wage_floored p_t) by (unfold wage_floored; now rewrite Hwage).
    destruct (step_ubi_covers p_t t Hw' Hhours) as [_ ->].
    eexists. split; [reflexivity|]. cbn. auto.
Qed.

End Decay.

(** C7, as the code has it.  Under a policy whose UBI equals the basic need
    of 150000, for a person with a floored wage who starts at 40 hours: the
    gap is 0; after [t] steps the person's hours are [decay t], that is 40
    multiplied [t] times by 0.7 in binary64, each product rounded; the
    target hours of the next step are 0 and that step sets the hours to
    [decay (t+1)] and computes savings and happiness from an income of
    labor income plus the constant 150000.  The hours never increase, stay
    positive, and from step 2096 on rest at the smallest positive float
    (so labor income shrinks towards zero without reaching it). *)
Theorem work_hours_decay_when_ubi_covers_need
    (policy : Policy.t) (p : Person.t) (t : nat) :
  Policy.ubi_amount policy = 150000%float ->
  wage_floored p ->
  Person.work_hours p = 40%float ->
  Person.gap policy Environment.basic_need = 0%float /\
  (exists p_t,
     person_steps policy Environment.basic_need t p = Ok p_t /\
     Person.work_hours p_t = decay t /\
     Person.hourly_wage p_t = Person.hourly_wage p /\
     (Person.gap policy Environment.basic_need / Person.denominator p_t
      = 0)%float /\
     Person.step policy [] Environment.basic_need p_t =
     Ok (Person.mk (Person.id p_t) (Person.age p_t) (Person.hourly_wage p)
           (decay (S t))
           (Person.saving p_t
            + (Person.hourly_wage p * decay (S t) * 4 + 150000)
              * (1 - Policy.income_tax_rate policy) * 0.2)%float
           (Person.household_id p_t)
           (5 + 0.00001 * (Person.hourly_wage p * decay (S t) * 4 + 150000)
            - 0.05 * Py.max 0 (decay (S t) - 40))%float)) /\
  (decay (S t) <=? decay t)%float = true /\
  (0 <? decay t)%float = true /\
  ((2096 <= t)%nat -> decay t = min_subnormal).
Proof.
  intros Hubi Hw Hh. split; [now apply gap_zero|]. split.
  - destruct (person_steps_decay policy Hubi p t Hw Hh)
      as (p_t & Hsteps & Hhours & Hwage).
    assert (Hw' : wage_floored p_t) by (unfold wage_floored; now rewrite Hwage).
    destruct (step_ubi_covers policy Hubi p_t t Hw' Hhours) as [Ht Hstep].
    exists p_t. rewrite <- Hwage. auto.
  - split; [apply decay_nonincreasing|].
    split; [apply decay_positive | apply decay_stuck].
Qed.

(** Two steps under a UBI of 150000, for a wage of 1000: the hours are
    40 * 0.7 = 28 and then 0.7 * 28, which rounds to 19.599999999999998. *)
Lemma work_hours_decay_when_ubi_covers_need_witness :
  Policy.ubi_amount (Policy.mk 150000 0.2) = 150000%float /\
  wage_floored (Person.mk 0 30 1000 40 0 0 5) /\
  Person.work_hours (Person.mk 0 30 1000 40 0 0 5) = 40%float /\
  exists p_t,
    person_steps (Policy.mk 150000 0.2) Environment.basic_need 2
      (Person.mk 0 30 1000 40 0 0 5) = Ok p_t /\
    Person.work_hours p_t = 19.599999999999998%float.
Proof.
  refine (conj eq_refl (conj eq_refl (conj eq_refl _))).
  destruct (work_hours_decay_when_ubi_covers_need (Policy.mk 150000 0.2)
              (Person.mk 0 30 1000 40 0 0 5) 2 eq_refl eq_refl eq_refl)
    as (_ & (p_t & Hsteps & Hhours & _) & _).
  exists p_t. split; [exact Hsteps | exact Hhours].
Defined.

(** The closed form [40 * 0.7^t] fails at [t = 11].  After eleven steps
    the engine holds 0.79093069719999942 hours.  The float expression
    [40 * 0.7 ** 11] is 0.79093069719999953, and the exact value of the
    engine's float is not the rational 40 * (7/10)^11 either. *)
Lemma work_hours_not_closed_form :
  exists p_t,
    person_steps (Policy.mk 150000 0.2) Environment.basic_need 11
      (Person.mk 0 30 1000 40 0 0 5) = Ok p_t /\
    Person.work_hours p_t = 0.79093069719999942%float /\
    (40 * fpow 0.7 11)%float = 0.79093069719999953%float /\
    Person.work_hours p_t <> (40 * fpow 0.7 11)%float /\
    exists q, F2Q (Person.work_hours p_t) = Some q /\
              ~ (q == 40 * (7 # 10) ^ 11)%Q.
Proof.
  eexists. split; [vm_compute; reflexivity|].
  split; [vm_compute; reflexivity|].
  split; [vm_compute; reflexivity|].
  split.
  - intros H. apply Leibniz.eqb_spec in H. vm_compute in H. discriminate H.
  - eexists. split; [vm_compute; reflexivity|].
    intros H. apply Qeq_bool_iff in H. vm_compute in H. discriminate H.
Qed.

(* ================================================================= *)
(** ** Monotone savings (C5) *)

Section Saving.
Local Open Scope float_scope.

(** Adding a float that is not negative to a number above minus infinity
    does not make it smaller. *)
Lemma add_ge_l s y :
  (neg_infinity <? s) = true -> (0 <=? y) = true -> (s <=? s + y) = true.
Proof.
  rewrite ltb_spec. intros Hs Hy%F64.ge0_leb.
  rewrite leb_spec, add_spec. apply SF.SFadd_ge_l.
  - apply Prim2SF_valid.
  - apply Prim2SF_valid.
  - intros E. rewrite E in Hs. discriminate.
  - intros E. rewrite E in Hs. discriminate.
  - assumption.
Qed.

Lemma ge0n_not_nan_leb x :
  sf_ge0n (Prim2SF x) = true -> is_nan x = false -> (0 <=? x) = true.
Proof.
  intros H Hn. apply F64.ge0_leb. apply SF.sf_ge0n_not_nan; [assumption|].
  now apply F64.not_nan_Prim2SF.
Qed.

Lemma leb_ge0n x : (0 <=? x) = true -> sf_ge0n (Prim2SF x) = true.
Proof. intros H%F64.ge0_leb. now apply SF.sf_ge0_ge0n. Qed.

(** With a tax rate of at most 1 and a UBI, a wage and hours that are not
    negative, the disposable income is not negative either, unless the
    arithmetic has broken down into a NaN. *)
Lemma disposable_income_ge0n policy p' :
  (Policy.income_tax_rate policy <=? 1) = true ->
  (0 <=? Policy.ubi_amount policy) = true ->
  (0 <=? Person.hourly_wage p') = true ->
  (0 <=? Person.work_hours p') = true ->
  sf_ge0n (Prim2SF (disposable_income policy p')) = true.
Proof.
  intros Htax Hubi Hw Hh. unfold disposable_income, income_total.
  rewrite mul_spec. apply SF.SFmul_ge0n.
  - rewrite add_spec. apply SF.SFadd_ge0n; [|now apply leb_ge0n].
    rewrite mul_spec. apply SF.SFmul_ge0n; [|reflexivity].
    rewrite mul_spec. apply SF.SFmul_ge0n; now apply leb_ge0n.
  - apply SF.sf_ge0_ge0n. rewrite sub_spec. apply SF.SFsub_ge0.
    + reflexivity.
    + apply Prim2SF_valid.
    + apply Prim2SF_valid.
    + now rewrite <- leb_spec.
Qed.

End Saving.

(** C5.  When [step] returns, the new saving is the old saving plus 0.2
    times the step's disposable income and nothing else.  Hence, for a
    saving that is a number above minus infinity, a disposable income that
    is not negative gives a new saving that is not smaller.  In particular
    this is so when the tax rate is at most 1 and UBI and wage are not
    negative, as long as the disposable income is a number (it is a NaN
    only when an overflow to infinity meets a zero factor). *)
Theorem saving_nondecreasing
    (policy : Policy.t) (ms : Person.macro_state) (basic_need : float)
    (p p' : Person.t) :
  Person.step policy ms basic_need p = Ok p' ->
  Person.saving p' =
    (Person.saving p + disposable_income policy p' * 0.2)%float /\
  ((neg_infinity <? Person.saving p)%float = true ->
   (0 <=? disposable_income policy p')%float = true ->
   (Person.saving p <=? Person.saving p')%float = true) /\
  ((Policy.income_tax_rate policy <=? 1)%float = true ->
   (0 <=? Policy.ubi_amount policy)%float = true ->
   (0 <=? Person.hourly_wage p)%float = true ->
   is_nan (disposable_income policy p') = false ->
   (0 <=? disposable_income policy p')%float = true).
Proof.
  intros Hstep.
  pose proof (step_frame _ _ _ _ _ Hstep) as (_ & _ & Hwage & _ & Hh0 & _).
  assert (Hsave : Person.saving p' =
            (Person.saving p + disposable_income policy p' * 0.2)%float).
  { revert Hstep. unfold Person.step, Py.div.
    destruct (Person.denominator p =? 0)%float; cbn [Py.bind];
      [discriminate|].
    intros [= <-]. reflexivity. }
  split; [exact Hsave|]. split.
  - intros Hs Hd. rewrite Hsave. apply add_ge_l; [assumption|].
    apply F64.ge0_leb. rewrite mul_spec.
    apply SF.SFmul_ge0_posfin; [now apply F64.ge0_leb | reflexivity].
  - intros Htax Hubi Hw Hn. apply ge0n_not_nan_leb; [|assumption].
    apply disposable_income_ge0n; try assumption. now rewrite Hwage.
Qed.

(** The person of the hand-computed scenario saves 36319.9999994. *)
Lemma saving_nondecreasing_witness :
  Person.step Policy.default [] 150000 (Person.mk 0 30 1000 40 0 0 5) =
    Ok (Person.mk 0 30 1000 31.749999999062499 36319.999999400003 0
          7.2699999999625007) /\
  (0 <=? 36319.999999400003)%float = true.
Proof.
  refine (conj eq_refl _).
  exact (proj1 (proj2 (saving_nondecreasing Policy.default [] 150000
                         (Person.mk 0 30 1000 40 0 0 5)
                         (Person.mk 0 30 1000 31.749999999062499
                            36319.999999400003 0 7.2699999999625007)
                         eq_refl))
           eq_refl eq_refl).
Defined.

(* ================================================================= *)
(** * Further properties of the code *)

(** ** What [Environment.step] leaves alone, and when it raises *)

Lemma mapM_Raise {A B : Type} (f : A -> Py.res B) (l : list A) (e : Py.exn) :
  Py.mapM f l = Raise e -> exists x, In x l /\ f x = Raise e.
Proof.
  induction l as [|x xs IH]; cbn [Py.mapM]; [discriminate|].
  destruct (f x) as [y|e'] eqn:E; cbn [Py.bind].
  - destruct (Py.mapM f xs) as [ys|e'] eqn:E'; cbn [Py.bind]; [discriminate|].
    intros [= ->]. destruct (IH eq_refl) as (x' & ? & ?).
    exists x'. split; [now right | assumption].
  - intros [= ->]. exists x. split; [now left | assumption].
Qed.

Lemma mapM_Raise_some {A B : Type} (f : A -> Py.res B) (l : list A) x e :
  In x l -> f x = Raise e -> exists e', Py.mapM f l = Raise e'.
Proof.
  intros Hin Hx. destruct (Py.mapM f l) as [ys|e'] eqn:E; [|eauto].
  destruct (mapM_Ok_all _ _ _ E x Hin) as (y & Hy & _). congruence.
Qed.

Lemma update_values_Raise {V : Type} (f : V -> Py.res V) (d : Py.dict V) e :
  Py.update_values f d = Raise e -> exists k v, In (k, v) d /\ f v = Raise e.
Proof.
  intros ([k v] & Hin & H)%mapM_Raise. exists k, v. split; [assumption|].
  cbv beta in H. cbn [fst snd] in H.
  destruct (f v); cbn [Py.bind] in H; [discriminate|].
  now injection H as ->.
Qed.

Lemma update_values_Raise_some {V : Type} (f : V -> Py.res V) (d : Py.dict V)
    k v e :
  In (k, v) d -> f v = Raise e -> exists e', Py.update_values f d = Raise e'.
Proof.
  intros Hin Hv. apply (mapM_Raise_some _ _ (k, v) e); [assumption|].
  cbn [fst snd]. now rewrite Hv.
Qed.

Lemma update_values_Ok_In {V : Type} (f : V -> Py.res V) (d d' : Py.dict V)
    k v :
  Py.update_values f d = Ok d' -> In (k, v) d -> exists v', f v = Ok v'.
Proof.
  intros H Hin. destruct (mapM_Ok_all _ _ _ H (k, v) Hin) as (y & Hy & _).
  cbv beta in Hy. cbn [fst snd] in Hy.
  destruct (f v); cbn [Py.bind] in Hy; [eauto | discriminate].
Qed.

Lemma person_step_Ok_iff policy ms basic_need p :
  (exists p', Person.step policy ms basic_need p = Ok p') <->
  (Person.denominator p =? 0)%float = false.
Proof.
  unfold Person.step, Py.div.
  destruct (Person.denominator p =? 0)%float; cbn [Py.bind]; split;
    try discriminate; eauto.
  intros [p' H]. discriminate.
Qed.

Lemma person_step_Raise_iff policy ms basic_need p e :
  Person.step policy ms basic_need p = Raise e <->
  (Person.denominator p =? 0)%float = true /\ e = Py.ZeroDivisionError.
Proof.
  unfold Person.step, Py.div.
  destruct (Person.denominator p =? 0)%float; cbn [Py.bind]; split.
  - intros [= <-]. auto.
  - intros [_ ->]. reflexivity.
  - discriminate.
  - intros [H _]. discriminate.
Qed.

(** X1.  A step that returns changes nobody's identity: the policy, the
    keys of both dictionaries and their order stay, every person keeps id,
    age, wage and household id, and every household keeps id, member list
    and poverty line.  Only hours, saving, happiness and income move. *)
Theorem environment_step_frame (env env' : Environment.t) :
  Environment.step env = Ok env' ->
  Environment.policy env' = Environment.policy env /\
  Py.keys (Environment.persons env') = Py.keys (Environment.persons env) /\
  Py.keys (Environment.households env') =
    Py.keys (Environment.households env) /\
  (forall pid p', In (pid, p') (Environment.persons env') ->
     exists p, In (pid, p) (Environment.persons env) /\
       Person.id p' = Person.id p /\ Person.age p' = Person.age p /\
       Person.hourly_wage p' = Person.hourly_wage p /\
       Person.household_id p' = Person.household_id p) /\
  (forall hid h', In (hid, h') (Environment.households env') ->
     exists h, In (hid, h) (Environment.households env) /\
       Household.id h' = Household.id h /\
       Household.member_ids h' = Household.member_ids h /\
       Household.poverty_line h' = Household.poverty_line h).
Proof.
  unfold Environment.step.
  intros (persons' & Hps & H)%bind_Ok_inv.
  apply bind_Ok_inv in H as (households' & Hhs & [= <-]).
  cbn [Environment.policy Environment.persons Environment.households].
  split; [reflexivity|].
  split; [exact (update_values_keys _ _ _ Hps)|].
  split; [exact (update_values_keys _ _ _ Hhs)|]. split.
  - intros pid p' Hin.
    destruct (update_values_In _ _ _ _ _ Hps Hin) as (p & Hin' & Hstep).
    apply step_frame in Hstep as (H1 & H2 & H3 & H4 & _). eauto 6.
  - intros hid h' Hin.
    destruct (update_values_In _ _ _ _ _ Hhs Hin) as (h & Hin' & Hagg).
    apply aggregate_frame in Hagg as (H1 & H2 & H3). eauto 6.
Qed.

Lemma environment_step_frame_witness :
  exists env',
    Environment.step (fst (@Environment.init nat Cycle.rs 1 2 0%nat)) = Ok env' /\
    Py.keys (Environment.persons env') = [0%Z; 1%Z].
Proof.
  eexists. split; [reflexivity|].
  exact (proj1 (proj2 (environment_step_frame
                         (fst (@Environment.init nat Cycle.rs 1 2 0%nat)) _
                         eq_refl))).
Defined.

(** X2.  The outcome of [Environment.step] on any environment.  It returns
    exactly when no person has a zero denominator [hourly_wage * 4 + 1e-6]
    and every member id of every household is a key of the persons
    dictionary.  It raises [ZeroDivisionError] exactly when some person has
    a zero denominator, whatever the households look like (the persons are
    updated first).  It raises [KeyError k] only when all persons could be
    updated and [k] is a member id that is not a key. *)
Theorem environment_step_outcome (env : Environment.t) :
  ((exists env', Environment.step env = Ok env') <->
   (forall pid p, In (pid, p) (Environment.persons env) ->
      (Person.denominator p =? 0)%float = false) /\
   members_present env) /\
  (Environment.step env = Raise Py.ZeroDivisionError <->
   exists pid p, In (pid, p) (Environment.persons env) /\
     (Person.denominator p =? 0)%float = true) /\
  (forall k, Environment.step env = Raise (Py.KeyError k) ->
     (forall pid p, In (pid, p) (Environment.persons env) ->
        (Person.denominator p =? 0)%float = false) /\
     exists hid h, In (hid, h) (Environment.households env) /\
       In k (Household.member_ids h) /\
       ~ In k (Py.keys (Environment.persons env))).
Proof.
  set (f := Person.step (Environment.policy env) [] Environment.basic_need).
  assert (Hall : forall persons',
            Py.update_values f (Environment.persons env) = Ok persons' ->
            forall pid p, In (pid, p) (Environment.persons env) ->
            (Person.denominator p =? 0)%float = false).
  { intros persons' Hps pid p Hin.
    apply (person_step_Ok_iff (Environment.policy env) []
             Environment.basic_need).
    exact (update_values_Ok_In _ _ _ _ _ Hps Hin). }
  unfold Environment.step. fold f. split; [|split].
  - split.
    + intros (env' & (persons' & Hps & H)%bind_Ok_inv).
      apply bind_Ok_inv in H as (households' & Hhs & _).
      split; [eauto|].
      intros hid h Hin pid Hpid.
      destruct (update_values_Ok_In _ _ _ _ _ Hhs Hin) as (h' & Hagg).
      rewrite <- (update_values_keys _ _ _ Hps).
      unfold Household.aggregate in Hagg.
      apply bind_Ok_inv in Hagg as (terms & Hterms & _).
      destruct (mapM_Ok_all _ _ _ Hterms pid Hpid) as (y & Hy & _).
      apply bind_Ok_inv in Hy as (q & Hq & _).
      eapply get_Ok_key; eauto.
    + intros [Hden Hpresent].
      destruct (update_values_total f (Environment.persons env))
        as [persons' Hps].
      { intros k p Hin. apply person_step_Ok_iff. eauto. }
      rewrite Hps. cbn [Py.bind].
      destruct (update_values_total (Household.aggregate persons')
                  (Environment.households env)) as [households' Hhs].
      { intros k h Hin. apply aggregate_total. intros pid Hpid.
        rewrite (update_values_keys _ _ _ Hps). eauto. }
      rewrite Hhs. cbn [Py.bind]. eauto.
  - split.
    + destruct (Py.update_values f (Environment.persons env))
        as [persons'|e] eqn:Hps; cbn [Py.bind].
      * destruct (Py.update_values _ (Environment.households env))
          as [households'|e] eqn:Hhs; cbn [Py.bind]; [discriminate|].
        intros [= ->].
        apply update_values_Raise in Hhs as (k & h & _ & Hagg).
        apply aggregate_raises in Hagg as (pid & _ & _ & [=]).
      * intros [= ->].
        apply update_values_Raise in Hps as (k & p & Hin & Hstep).
        apply person_step_Raise_iff in Hstep as [Hden _]. eauto.
    + intros (pid & p & Hin & Hden).
      destruct (update_values_Raise_some f _ pid p Py.ZeroDivisionError Hin)
        as [e' He'].
      { apply person_step_Raise_iff. auto. }
      rewrite He'. cbn [Py.bind].
      apply update_values_Raise in He' as (k & q & _ & Hstep).
      now apply person_step_Raise_iff in Hstep as [_ ->].
  - intros k.
    destruct (Py.update_values f (Environment.persons env))
      as [persons'|e] eqn:Hps; cbn [Py.bind].
    + destruct (Py.update_values _ (Environment.households env))
        as [households'|e] eqn:Hhs; cbn [Py.bind]; [discriminate|].
      intros [= ->]. split; [eauto|].
      apply update_values_Raise in Hhs as (hid & h & Hin & Hagg).
      apply aggregate_raises in Hagg as (pid & Hpid & Hnot & [= ->]).
      rewrite (update_values_keys _ _ _ Hps) in Hnot. eauto.
    + intros [= ->].
      apply update_values_Raise in Hps as (pid & p & _ & Hstep).
      now apply person_step_Raise_iff in Hstep as [_ [=]].
Qed.

(* ================================================================= *)
(** ** The runner: horizon, generator and what a rate measures *)

Lemma run_sim_total {G : Type} {RS : RandomState G}
    (years steps_per_year : Z) (g : G) :
  exists rates, fst (run_sim years steps_per_year g) = Ok rates.
Proof.
  unfold run_sim.
  pose proof (init_inv (fun p => wage_safe p /\ hours_bounded p)
                new_person_safe 1000 2 g) as Hinv.
  destruct (Environment.init 1000 2 g) as [env g']. cbn [fst] in *.
  destruct (simulate_spec (fun p => wage_safe p /\ hours_bounded p)
              (fun p H => proj1 H) (step_keeps_safe _ _ _)
              (Z.to_nat (years * steps_per_year)) _ env [] Hinv)
    as (rates & H1 & _).
  eauto.
Qed.

Lemma run_sim_fst {G : Type} {RS : RandomState G}
    (years steps_per_year : Z) (g : G) :
  fst (run_sim years steps_per_year g) =
  simulate (Z.to_nat (years * steps_per_year))
    (fst (Environment.init 1000 2 g)) [].
Proof. unfold run_sim. now destruct (Environment.init 1000 2 g). Qed.

Lemma run_sim_snd {G : Type} {RS : RandomState G}
    (years steps_per_year : Z) (g : G) :
  snd (run_sim years steps_per_year g) = snd (Environment.init 1000 2 g).
Proof. unfold run_sim. now destruct (Environment.init 1000 2 g). Qed.

Lemma init_snd {G : Type} {RS : RandomState G}
    (n_households persons_per_household : Z) (g : G) :
  snd (Environment.init n_households persons_per_household g) =
  snd (Environment.add_households (Z.to_nat n_households)
         (Z.to_nat persons_per_household) 0%Z ([], [], 0%Z, g)).
Proof.
  unfold Environment.init.
  now destruct Environment.add_households as [[[persons households] pid] g'].
Qed.

(** X3.  A horizon that is not positive ([years * steps_per_year <= 0],
    so a zero or a negative argument) gives the empty sequence: the loop
    body never runs and nothing is raised. *)
Theorem run_sim_empty_horizon {G : Type} {RS : RandomState G}
    (years steps_per_year : Z) (g : G) :
  (years * steps_per_year <= 0)%Z ->
  fst (run_sim years steps_per_year g) = Ok [].
Proof.
  intros H. rewrite run_sim_fst.
  replace (Z.to_nat (years * steps_per_year)) with 0%nat by lia.
  reflexivity.
Qed.

Lemma run_sim_empty_horizon_witness :
  (-3 * 12 <= 0)%Z /\ fst (@run_sim nat Cycle.rs (-3) 12 0%nat) = Ok [].
Proof.
  refine (conj _ (@run_sim_empty_horizon nat Cycle.rs (-3) 12 0%nat _));
    discriminate.
Defined.

(** X4.  Whatever the horizon, [run_sim] leaves the generator in the state
    reached by drawing the age and wage of 2000 persons: construction
    draws these 4000 samples and the simulated months draw nothing. *)
Theorem run_sim_generator {G : Type} {RS : RandomState G}
    (years steps_per_year : Z) (g : G) :
  snd (run_sim years steps_per_year g) = after_draws 2000 g.
Proof.
  rewrite run_sim_snd, init_snd.
  exact (add_households_generator 1000 2 0%Z [] [] 0%Z g).
Qed.

(** X5.  Extending the horizon does not change the months already
    simulated: from one generator state, the sequence of a run with fewer
    steps is a prefix of the sequence of a run with more. *)
Theorem run_sim_horizon_prefix {G : Type} {RS : RandomState G}
    (years steps_per_year years' steps_per_year' : Z) (g : G) :
  (years * steps_per_year <= years' * steps_per_year')%Z ->
  exists rates rest,
    fst (run_sim years steps_per_year g) = Ok rates /\
    fst (run_sim years' steps_per_year' g) = Ok (rates ++ rest).
Proof.
  intros Hle.
  destruct (run_sim_total years steps_per_year g) as [rates Hr].
  destruct (run_sim_total years' steps_per_year' g) as [rates' Hr'].
  exists rates. rewrite Hr, Hr'. rewrite run_sim_fst in Hr, Hr'.
  replace (Z.to_nat (years' * steps_per_year'))
    with (Z.to_nat (years * steps_per_year)
          + (Z.to_nat (years' * steps_per_year')
             - Z.to_nat (years * steps_per_year)))%nat in Hr' by lia.
  destruct (simulate_prefix _ _ _ _ _ _ Hr Hr') as [rest ->]. eauto.
Qed.

Lemma run_sim_horizon_prefix_witness :
  (1 * 2 <= 1 * 3)%Z /\
  exists rates rest,
    fst (@run_sim nat Cycle.rs 1 2 0%nat) = Ok rates /\
    fst (@run_sim nat Cycle.rs 1 3 0%nat) = Ok (rates ++ rest).
Proof.
  refine (conj _ (@run_sim_horizon_prefix nat Cycle.rs 1 2 1 3 0%nat _));
    discriminate.
Defined.

(** X6.  Entry [t] of the returned sequence is measured on the environment
    after [t + 1] steps: it is the number of households whose income is
    below their poverty line there, divided by 1000.  The constructed
    environment itself is never measured. *)
Theorem run_sim_rate_measures {G : Type} {RS : RandomState G}
    (years steps_per_year : Z) (g : G) :
  exists rates,
    fst (run_sim years steps_per_year g) = Ok rates /\
    length rates = Z.to_nat (years * steps_per_year) /\
    forall t, (t < length rates)%nat ->
      exists env_t,
        steps (S t) (fst (Environment.init 1000 2 g)) = Ok env_t /\
        nth t rates 0%float =
          (Py.of_nat (poor_count env_t) / Py.of_nat 1000)%float.
Proof.
  destruct (run_sim_total years steps_per_year g) as [rates Hr].
  exists rates. split; [exact Hr|]. rewrite run_sim_fst in Hr.
  destruct (simulate_measures _ _ _ _ Hr) as (rs & Heq & Hlen & Hm).
  cbn [app] in Heq. subst rs. split; [exact Hlen|].
  intros t Ht. rewrite Hlen in Ht.
  destruct (Hm t Ht) as (env_t & Hsteps & Hrate).
  exists env_t. split; [exact Hsteps|].
  pose proof (reachable_from_inv (fun p => wage_safe p /\ hours_bounded p)
                (step_keeps_safe _ _ _) _ _ _ env_t
                (init_inv _ new_person_safe 1000 2 g)
                (steps_reachable _ _ _ Hsteps)) as Hinv.
  unfold poverty_rate in Hrate.
  rewrite (env_inv_households_length _ _ _ _ Hinv) in Hrate.
  change (Z.to_nat 1000) with 1000%nat in Hrate.
  cbn [Py.truediv] in Hrate. now injection Hrate as <-.
Qed.

(* ================================================================= *)
(** ** The layout of the population *)

Section Layout.
Context {G : Type} {RS : RandomState G}.
Variables (pph : nat) (g0 : G).

Lemma after_draws_S (n : nat) (g : G) :
  after_draws (S n) g = snd (draw (after_draws n g)).
Proof.
  replace (S n) with (n + 1)%nat by lia. now rewrite after_draws_add.
Qed.

Lemma new_person_sample pid hid (n : nat) :
  Environment.new_person pid hid (after_draws n g0) =
  (person_of pid hid (sample n g0), after_draws (S n) g0).
Proof. rewrite new_person_draw, after_draws_S. reflexivity. Qed.

Lemma add_members_layout (k c : nat) :
  forall (persons : Py.dict Person.t) (member_ids : list Z) (n : nat),
  Py.keys persons = ids n ->
  (c * pph <= n)%nat -> (n + k <= c * pph + pph)%nat ->
  Forall (person_init pph g0) persons ->
  let '(persons', member_ids', pid', g') :=
    Environment.add_members k (Z.of_nat c)
      (persons, member_ids, Z.of_nat n, after_draws n g0) in
  Py.keys persons' = ids (n + k) /\
  member_ids' = member_ids ++ map Z.of_nat (seq n k) /\
  pid' = Z.of_nat (n + k) /\
  g' = after_draws (n + k) g0 /\
  Forall (person_init pph g0) persons'.
Proof.
  induction k as [|k IH]; intros persons member_ids n Hk Hlo Hhi HQ.
  - cbn. rewrite Nat.add_0_r, app_nil_r. auto.
  - cbn [Environment.add_members].
    rewrite new_person_sample, (set_ids_new _ _ _ Hk).
    replace (Z.of_nat n + 1)%Z with (Z.of_nat (S n)) by lia.
    set (p := person_of (Z.of_nat n) (Z.of_nat c) (sample n g0)).
    assert (Hk' : Py.keys (persons ++ [(Z.of_nat n, p)]) = ids (S n)).
    { unfold Py.keys in *. rewrite map_app, Hk, ids_S. reflexivity. }
    assert (HQ' : Forall (person_init pph g0) (persons ++ [(Z.of_nat n, p)])).
    { apply Forall_app. split; [assumption|].
      repeat constructor. exists n, c. repeat split; auto; lia. }
    specialize (IH (persons ++ [(Z.of_nat n, p)])
                   (member_ids ++ [Z.of_nat n]) (S n) Hk'
                   ltac:(lia) ltac:(lia) HQ').
    destruct Environment.add_members as [[[persons' mids'] pid'] g'].
    destruct IH as (H1 & H2 & H3 & H4 & H5).
    rewrite H1, H2, H3, H4, <- app_assoc. cbn [seq map app].
    replace (n + S k)%nat with (S n + k)%nat by lia. auto.
Qed.

Lemma add_households_layout (m : nat) :
  forall (persons : Py.dict Person.t) (households : Py.dict Household.t)
         (c : nat),
  Py.keys persons = ids (c * pph) ->
  Py.keys households = ids c ->
  Forall (person_init pph g0) persons ->
  Forall (household_init pph) households ->
  let '(persons', households', _, _) :=
    Environment.add_households m pph (Z.of_nat c)
      (persons, households, Z.of_nat (c * pph), after_draws (c * pph) g0) in
  Py.keys persons' = ids ((c + m) * pph) /\
  Py.keys households' = ids (c + m) /\
  Forall (person_init pph g0) persons' /\
  Forall (household_init pph) households'.
Proof.
  induction m as [|m IH]; intros persons households c Hp Hh HQ Hok.
  - cbn. rewrite !Nat.add_0_r. auto.
  - cbn [Environment.add_households].
    pose proof (add_members_layout pph c persons [] (c * pph) Hp
                  ltac:(lia) ltac:(lia) HQ) as Hm.
    destruct Environment.add_members as [[[persons1 mids] pid1] g1].
    destruct Hm as (Hp1 & -> & -> & -> & HQ1). cbn [app].
    rewrite (set_ids_new _ _ _ Hh).
    replace (Z.of_nat c + 1)%Z with (Z.of_nat (S c)) by lia.
    replace (c * pph + pph)%nat with (S c * pph)%nat in * by lia.
    set (h := Household.new (Z.of_nat c) (map Z.of_nat (seq (c * pph) pph))).
    assert (Hh' : Py.keys (households ++ [(Z.of_nat c, h)]) = ids (S c)).
    { unfold Py.keys in *. rewrite map_app, Hh, ids_S. reflexivity. }
    assert (Hok' : Forall (household_init pph)
                     (households ++ [(Z.of_nat c, h)])).
    { apply Forall_app. split; [assumption|].
      repeat constructor. exists c. auto. }
    specialize (IH persons1 (households ++ [(Z.of_nat c, h)]) (S c)
                  Hp1 Hh' HQ1 Hok').
    destruct Environment.add_households as [[[persons2 households2] pid2] g2].
    replace (c + S m)%nat with (S c + m)%nat by lia. exact IH.
Qed.

End Layout.

Lemma init_layout_inv {G : Type} {RS : RandomState G}
    (n_households persons_per_household : Z) (g : G) :
  Py.keys (Environment.persons
             (fst (Environment.init n_households persons_per_household g))) =
    ids (Z.to_nat n_households * Z.to_nat persons_per_household) /\
  Py.keys (Environment.households
             (fst (Environment.init n_households persons_per_household g))) =
    ids (Z.to_nat n_households) /\
  Forall (person_init (Z.to_nat persons_per_household) g)
    (Environment.persons
       (fst (Environment.init n_households persons_per_household g))) /\
  Forall (household_init (Z.to_nat persons_per_household))
    (Environment.households
       (fst (Environment.init n_households persons_per_household g))).
Proof.
  rewrite init_fst. cbv zeta.
  cbn [Environment.persons Environment.households].
  pose proof (add_households_layout (Z.to_nat persons_per_household) g
                (Z.to_nat n_households) [] [] 0 eq_refl eq_refl
                (Forall_nil _) (Forall_nil _)) as H.
  cbn [Nat.mul Nat.add after_draws] in H. change (Z.of_nat 0) with 0%Z in H.
  destruct (Environment.add_households _ _ _ _)
    as [[[persons households] pid] g'] eqn:E.
  exact H.
Qed.

Lemma person_init_filed {G : Type} {RS : RandomState G} (pph : nat) (g0 : G)
    kv :
  person_init pph g0 kv -> person_filed pph kv.
Proof.
  intros (i & hid & H1 & H2 & H3). exists i, hid. rewrite H2. auto.
Qed.

Lemma household_init_filed (pph : nat) kv :
  household_init pph kv -> household_filed pph kv.
Proof. intros (c & H1 & H2). exists c. rewrite H2. auto. Qed.

Lemma init_env_layout {G : Type} {RS : RandomState G}
    (n_households persons_per_household : Z) (g : G) :
  env_layout (Z.to_nat persons_per_household) (Z.to_nat n_households)
    (fst (Environment.init n_households persons_per_household g)).
Proof.
  destruct (init_layout_inv n_households persons_per_household g)
    as (H1 & H2 & H3 & H4).
  repeat split; auto.
  - eapply Forall_impl; [|exact H3]. apply person_init_filed.
  - eapply Forall_impl; [|exact H4]. apply household_init_filed.
Qed.

Lemma step_env_layout (pph n : nat) env env' :
  env_layout pph n env -> Environment.step env = Ok env' ->
  env_layout pph n env'.
Proof.
  intros (Hp & Hh & HP & HH). unfold Environment.step.
  intros (persons' & Hps & H)%bind_Ok_inv.
  apply bind_Ok_inv in H as (households' & Hhs & [= <-]).
  unfold env_layout.
  cbn [Environment.policy Environment.persons Environment.households].
  repeat split.
  - now rewrite (update_values_keys _ _ _ Hps).
  - now rewrite (update_values_keys _ _ _ Hhs).
  - rewrite Forall_forall. intros [k p'] Hin.
    destruct (update_values_In _ _ _ _ _ Hps Hin) as (p & Hin' & Hstep).
    rewrite Forall_forall in HP.
    destruct (HP _ Hin') as (i & hid & E1 & E2 & E3 & E4).
    apply step_frame in Hstep as (F1 & _ & _ & F4 & _).
    exists i, hid. cbn in *. rewrite F1, F4. auto.
  - rewrite Forall_forall. intros [k h'] Hin.
    destruct (update_values_In _ _ _ _ _ Hhs Hin) as (h & Hin' & Hagg).
    rewrite Forall_forall in HH.
    destruct (HH _ Hin') as (c & E1 & E2 & E3).
    apply aggregate_frame in Hagg as (F1 & F2 & _).
    exists c. cbn in *. rewrite F1, F2. auto.
Qed.

Lemma reachable_from_layout (pph n : nat) env0 env :
  env_layout pph n env0 -> reachable_from env0 env -> env_layout pph n env.
Proof.
  intros H0. induction 1 as [|env env' _ IH Hstep]; [assumption|].
  eapply step_env_layout; eauto.
Qed.

Lemma block_unique (pph i c d : nat) :
  (c * pph <= i < c * pph + pph)%nat ->
  (d * pph <= i < d * pph + pph)%nat -> c = d.
Proof.
  intros Hc Hd.
  destruct (Nat.lt_trichotomy c d) as [H|[H|H]]; [exfalso|assumption|exfalso].
  - assert (S c * pph <= d * pph)%nat by (apply Nat.mul_le_mono_r; lia).
    cbn in *. lia.
  - assert (S d * pph <= c * pph)%nat by (apply Nat.mul_le_mono_r; lia).
    cbn in *. lia.
Qed.

Lemma block_div (pph i c : nat) :
  (c * pph <= i < c * pph + pph)%nat -> c = (i / pph)%nat.
Proof.
  intros H. apply (Nat.div_unique i pph c (i - c * pph)); lia.
Qed.

Lemma In_block (pph c : nat) (k : Z) :
  In k (map Z.of_nat (seq (c * pph) pph)) <->
  exists i, k = Z.of_nat i /\ (c * pph <= i < c * pph + pph)%nat.
Proof.
  rewrite in_map_iff. split.
  - intros (i & <- & Hin%in_seq). eauto.
  - intros (i & -> & Hi). exists i. split; [reflexivity|].
    apply in_seq. lia.
Qed.

(** X7.  The population [Environment.__init__] builds, entry by entry.
    With [H] households of [P] persons, the persons dictionary has the
    keys [0 .. H*P-1] in order and the households dictionary the keys
    [0 .. H-1]; person [i] lives in household [i / P], carries the [i]-th
    pair of samples (age, then wage raised to the floor of 600) and starts
    with 40 hours, no savings and happiness 5; household [c] lists the
    members [c*P .. c*P+P-1] in order and starts with income 0. *)
Theorem init_population {G : Type} {RS : RandomState G}
    (n_households persons_per_household : Z) (g : G) :
  Py.keys (Environment.persons
             (fst (Environment.init n_households persons_per_household g))) =
    ids (Z.to_nat n_households * Z.to_nat persons_per_household) /\
  Py.keys (Environment.households
             (fst (Environment.init n_households persons_per_household g))) =
    ids (Z.to_nat n_households) /\
  (forall i : nat,
     (i < Z.to_nat n_households * Z.to_nat persons_per_household)%nat ->
     Py.get (Environment.persons
               (fst (Environment.init n_households persons_per_household g)))
            (Z.of_nat i) =
     Ok (person_of (Z.of_nat i)
           (Z.of_nat (i / Z.to_nat persons_per_household)) (sample i g))) /\
  (forall c : nat,
     (c < Z.to_nat n_households)%nat ->
     Py.get (Environment.households
               (fst (Environment.init n_households persons_per_household g)))
            (Z.of_nat c) =
     Ok (Household.new (Z.of_nat c)
           (map Z.of_nat (seq (c * Z.to_nat persons_per_household)
                              (Z.to_nat persons_per_household))))).
Proof.
  destruct (init_layout_inv n_households persons_per_household g)
    as (Hp & Hh & HP & HH).
  split; [assumption|]. split; [assumption|]. split.
  - intros i Hi.
    destruct (get_key_Ok
                (Environment.persons
                   (fst (Environment.init n_households
                           persons_per_household g))) (Z.of_nat i))
      as [p Hget].
    { rewrite Hp. apply In_ids. lia. }
    rewrite Hget. f_equal.
    apply get_Ok_In in Hget. rewrite Forall_forall in HP.
    destruct (HP _ Hget) as (j & hid & E1 & E2 & E3). cbn in E1, E2.
    apply Nat2Z.inj in E1. subst j.
    now rewrite E2, (block_div _ _ _ E3).
  - intros c Hc.
    destruct (get_key_Ok
                (Environment.households
                   (fst (Environment.init n_households
                           persons_per_household g))) (Z.of_nat c))
      as [h Hget].
    { rewrite Hh. apply In_ids. lia. }
    rewrite Hget. f_equal.
    apply get_Ok_In in Hget. rewrite Forall_forall in HH.
    destruct (HH _ Hget) as (d & E1 & E2). cbn in E1, E2.
    apply Nat2Z.inj in E1. subst d. exact E2.
Qed.

(** X8.  Persons and households agree about who lives where, in every
    environment a run passes through.  An entry is filed under its own id;
    a person is on the member list of a household exactly when the
    person's [household_id] is that household's key; and the household a
    person names exists and lists the person. *)
Theorem membership_consistent {G : Type} {RS : RandomState G}
    (env : Environment.t) (pid : Z) (p : Person.t) :
  reachable env ->
  In (pid, p) (Environment.persons env) ->
  Person.id p = pid /\
  (exists h, In (Person.household_id p, h) (Environment.households env) /\
             In pid (Household.member_ids h)) /\
  (forall hid h, In (hid, h) (Environment.households env) ->
     Household.id h = hid /\
     (In pid (Household.member_ids h) <-> Person.household_id p = hid)).
Proof.
  intros (nh & pph & g & Hr) Hin.
  pose proof (reachable_from_layout _ _ _ _ (init_env_layout nh pph g) Hr)
    as (Hp & Hh & HP & HH).
  rewrite Forall_forall in HP, HH.
  destruct (HP _ Hin) as (i & hp & E1 & E2 & E3 & E4). cbn in E1, E2, E3.
  subst pid.
  assert (Hblocks : forall hid h, In (hid, h) (Environment.households env) ->
            Household.id h = hid /\
            (In (Z.of_nat i) (Household.member_ids h) <->
             Person.household_id p = hid)).
  { intros hid h Hinh.
    destruct (HH _ Hinh) as (c & F1 & F2 & F3). cbn in F1, F2, F3.
    subst hid. split; [assumption|]. rewrite F3, In_block, E3. split.
    - intros (j & Hj%Nat2Z.inj & Hb). subst j.
      now rewrite (block_unique _ _ _ _ E4 Hb).
    - intros Hc%Nat2Z.inj. subst c. eauto. }
  split; [assumption|]. split; [|exact Hblocks].
  assert (Hi : In (Z.of_nat i) (Py.keys (Environment.persons env))).
  { change (Z.of_nat i) with (fst (Z.of_nat i, p)). now apply in_map. }
  rewrite Hp in Hi. apply In_ids in Hi.
  assert (Hlt : (hp < Z.to_nat nh)%nat).
  { destruct (Nat.lt_ge_cases hp (Z.to_nat nh)) as [|Hge]; [assumption|].
    assert (Z.to_nat nh * Z.to_nat pph <= hp * Z.to_nat pph)%nat
      by (apply Nat.mul_le_mono_r; lia).
    lia. }
  destruct (get_key_Ok (Environment.households env) (Z.of_nat hp))
    as [h Hget].
  { rewrite Hh. apply In_ids. lia. }
  apply get_Ok_In in Hget. exists h. rewrite E3.
  split; [assumption|]. now apply (Hblocks _ _ Hget).
Qed.

Lemma membership_consistent_witness :
  exists p,
    Py.get (Environment.persons (fst (@Environment.init nat Cycle.rs 2 2 0%nat)))
      3 = Ok p /\
    Person.id p = 3%Z /\
    exists h,
      In (Person.household_id p, h)
        (Environment.households (fst (@Environment.init nat Cycle.rs 2 2 0%nat)))
      /\ In 3%Z (Household.member_ids h).
Proof.
  eexists. split; [reflexivity|].
  refine ((fun H => conj (proj1 H) (proj1 (proj2 H)))
            (@membership_consistent nat Cycle.rs
               (fst (@Environment.init nat Cycle.rs 2 2 0%nat)) 3%Z _ _ _)).
  - exists 2%Z, 2%Z, 0%nat. constructor.
  - vm_compute. right. right. right. left. reflexivity.
Defined.

(* ================================================================= *)
(** ** The epsilon in the denominator *)


Lemma SFadd_ge0_pos_r x y :
  sf_ge0 x = true -> valid_binary x = true ->
  sf_posfin y = true -> valid_binary y = true ->
  sf_pos (SF64add x y) = true.
Proof.
  intros Hx Vx Hy Vy. destruct (sf_nonneg x) eqn:E.
  - now apply SF.SFadd_pos_r.
  - destruct x as [[]|[]| |[] mx ex]; try discriminate.
    destruct y as [| | |[] my ey]; try discriminate. reflexivity.
Qed.

Lemma sf_pos_eqb_zero x :
  sf_pos (Prim2SF x) = true -> (x =? 0)%float = false.
Proof.
  intros H. rewrite eqb_spec.
  destruct (Prim2SF x) as [[]|[]| |[] ? ?]; try discriminate; reflexivity.
Qed.

(** X9.  The [1e-6] in the denominator of [target_hours] does its job for
    every wage that is not negative: with [0 <= hourly_wage] (zero of
    either sign, any positive number, plus infinity) [step] returns and
    never raises [ZeroDivisionError].  It is no guard below zero: a wage
    of [-2.5e-7] cancels it exactly ([step_raises_below_zero]). *)
Theorem step_returns_for_nonneg_wage
    (policy : Policy.t) (ms : Person.macro_state) (basic_need : float)
    (p : Person.t) :
  (0 <=? Person.hourly_wage p)%float = true ->
  exists p', Person.step policy ms basic_need p = Ok p'.
Proof.
  intros Hw. apply person_step_Ok_iff, sf_pos_eqb_zero.
  unfold Person.denominator. rewrite add_spec. apply SFadd_ge0_pos_r.
  - rewrite mul_spec. apply SF.SFmul_ge0_posfin; [|reflexivity].
    now apply F64.ge0_leb.
  - apply Prim2SF_valid.
  - reflexivity.
  - apply Prim2SF_valid.
Qed.

Lemma step_returns_for_nonneg_wage_witness :
  (0 <=? -0)%float = true /\
  exists p',
    Person.step Policy.default [] 150000 (Person.mk 0 30 (-0) 40 0 0 5) =
    Ok p'.
Proof.
  refine (conj eq_refl _).
  exact (step_returns_for_nonneg_wage Policy.default [] 150000
           (Person.mk 0 30 (-0) 40 0 0 5) eq_refl).
Defined.

Lemma step_raises_below_zero
    (policy : Policy.t) (ms : Person.macro_state) (basic_need : float)
    (p : Person.t) :
  Person.hourly_wage p = (-2.5e-7)%float ->
  Person.step policy ms basic_need p = Raise Py.ZeroDivisionError.
Proof.
  intros Hw. apply person_step_Raise_iff. split; [|reflexivity].
  unfold Person.denominator. rewrite Hw. reflexivity.
Qed.

(* ================================================================= *)
(** ** Poverty before the first month *)

Lemma poor_count_all (hs : Py.dict Household.t) :
  Forall (fun kv => Household.is_poor (snd kv) = true) hs ->
  length (filter Household.is_poor (Py.values hs)) = length hs.
Proof.
  induction 1 as [|kv hs Hkv _ IH]; [reflexivity|].
  cbn [Py.values map filter]. rewrite Hkv. cbn [length].
  f_equal. exact IH.
Qed.

Lemma length_keys {V : Type} (d : Py.dict V) : length (Py.keys d) = length d.
Proof. apply length_map. Qed.

(** X10.  [Environment.__init__] leaves every household with income 0.0,
    which is below the poverty line: counted on the freshly built
    environment, all [n_households] households are poor.  (The rates of
    [run_sim] are taken after a step, when incomes have been aggregated.) *)
Theorem all_poor_at_construction {G : Type} {RS : RandomState G}
    (n_households persons_per_household : Z) (g : G) :
  poor_count (fst (Environment.init n_households persons_per_household g)) =
    length (Environment.households
              (fst (Environment.init n_households persons_per_household g)))
  /\
  length (Environment.households
            (fst (Environment.init n_households persons_per_household g))) =
    Z.to_nat n_households.
Proof.
  destruct (init_layout_inv n_households persons_per_household g)
    as (_ & Hh & _ & HH).
  split.
  - apply poor_count_all. eapply Forall_impl; [|exact HH].
    intros kv (c & _ & ->). reflexivity.
  - now rewrite <- length_keys, Hh, length_ids.
Qed.

(* ================================================================= *)
(** ** A population without persons *)

Lemma vacant_poor kv : vacant kv -> Household.is_poor (snd kv) = true.
Proof.
  intros (_ & Hi & Hl). unfold Household.is_poor. now rewrite Hi, Hl.
Qed.

Lemma aggregate_vacant persons k h :
  vacant (k, h) ->
  exists h', Household.aggregate persons h = Ok h' /\ vacant (k, h').
Proof.
  intros (Hm & Hi & Hl). cbn [snd] in *. unfold Household.aggregate.
  rewrite Hm. cbn [Py.mapM Py.bind]. eexists. split; [reflexivity|].
  repeat split; assumption.
Qed.

Lemma update_values_nil {V : Type} (f : V -> Py.res V) :
  Py.update_values f [] = Ok [].
Proof. reflexivity. Qed.

Lemma memberless_step_total n env :
  memberless n env -> exists env', Environment.step env = Ok env'.
Proof.
  intros (Hp & _ & Hv). unfold Environment.step. rewrite Hp.
  rewrite update_values_nil. cbn [Py.bind].
  destruct (update_values_total (Household.aggregate [])
              (Environment.households env)) as [hs Hhs].
  - intros k h Hin. rewrite Forall_forall in Hv.
    destruct (aggregate_vacant [] k h (Hv _ Hin)) as (h' & Hh' & _). eauto.
  - rewrite Hhs. cbn [Py.bind]. eauto.
Qed.

Lemma memberless_step n env env' :
  memberless n env -> Environment.step env = Ok env' -> memberless n env'.
Proof.
  intros (Hp & Hn & Hv). unfold Environment.step. rewrite Hp.
  rewrite update_values_nil. cbn [Py.bind].
  intros (hs & Hhs & [= <-])%bind_Ok_inv.
  unfold memberless. cbn [Environment.persons Environment.households].
  split; [reflexivity|]. split.
  - now rewrite (update_values_length _ _ _ Hhs).
  - rewrite Forall_forall. intros [k h'] Hin.
    destruct (update_values_In _ _ _ _ _ Hhs Hin) as (h & Hin' & Hagg).
    rewrite Forall_forall in Hv.
    destruct (aggregate_vacant [] k h (Hv _ Hin')) as (h'' & Hh'' & Hvac).
    congruence.
Qed.

Lemma init_memberless {G : Type} {RS : RandomState G}
    (n_households persons_per_household : Z) (g : G) :
  (persons_per_household <= 0)%Z ->
  memberless (Z.to_nat n_households)
    (fst (Environment.init n_households persons_per_household g)).
Proof.
  intros Hle.
  destruct (init_layout_inv n_households persons_per_household g)
    as (Hp & Hh & _ & HH).
  replace (Z.to_nat persons_per_household) with 0%nat in * by lia.
  rewrite Nat.mul_0_r in Hp. repeat split.
  - destruct (Environment.persons _); [reflexivity | discriminate].
  - now rewrite <- length_keys, Hh, length_ids.
  - eapply Forall_impl; [|exact HH].
    intros [k h] (c & _ & E). cbn [snd] in E. subst h. repeat split.
Qed.

(** X11.  An environment built with no persons per household
    ([persons_per_household <= 0]) has an empty persons dictionary and
    stays that way: every step returns, every household aggregates the
    empty sum 0 and all [n_households] households are counted poor after
    any number of steps. *)
Theorem memberless_population {G : Type} {RS : RandomState G}
    (n_households persons_per_household : Z) (g : G) (env : Environment.t) :
  (persons_per_household <= 0)%Z ->
  reachable_from
    (fst (Environment.init n_households persons_per_household g)) env ->
  Environment.persons env = [] /\
  length (Environment.households env) = Z.to_nat n_households /\
  poor_count env = Z.to_nat n_households /\
  exists env', Environment.step env = Ok env'.
Proof.
  intros Hle Hr.
  assert (H : memberless (Z.to_nat n_households) env).
  { induction Hr as [|env env' _ IH Hstep].
    - now apply init_memberless.
    - eapply memberless_step; eauto. }
  pose proof (memberless_step_total _ _ H) as Ht.
  destruct H as (Hp & Hn & Hv). repeat split; try assumption.
  rewrite <- Hn. apply poor_count_all.
  eapply Forall_impl; [|exact Hv]. apply vacant_poor.
Qed.

Lemma memberless_population_witness :
  exists env,
    Environment.step (fst (@Environment.init nat Cycle.rs 3 0 0%nat)) = Ok env
    /\ poor_count env = 3%nat.
Proof.
  eexists. split; [reflexivity|].
  refine (proj1 (proj2 (proj2
            (@memberless_population nat Cycle.rs 3 0 0%nat _ _ _)))).
  - lia.
  - eapply reachable_step; [apply reachable_start | reflexivity].
Defined.

(* ================================================================= *)
(** ** Savings in a run *)

Section Savers.
Local Open Scope float_scope.

Lemma posfin_of_floored w :
  (600 <=? w) = true -> (w <? infinity) = true ->
  sf_posfin (Prim2SF w) = true.
Proof.
  intros H1 H2. apply (F64.leb_posfin_pos 600) in H1; [|reflexivity].
  rewrite ltb_spec in H2.
  destruct (Prim2SF w) as [[]|[]| |[] ? ?]; try discriminate; reflexivity.
Qed.

Lemma nonneg_leb x : sf_nonneg (Prim2SF x) = true -> (0 <=? x) = true.
Proof. intros H. now apply F64.ge0_leb, SF.sf_nonneg_ge0. Qed.

(** The part of the default policy's disposable income that goes into
    savings is a number that is not negative, for a finite wage. *)
Lemma saved_part_nonneg p' :
  sf_posfin (Prim2SF (Person.hourly_wage p')) = true ->
  (0 <=? Person.work_hours p') = true ->
  sf_nonneg (Prim2SF (disposable_income Policy.default p' * 0.2)) = true.
Proof.
  intros Hw Hh%F64.ge0_leb. unfold disposable_income, income_total.
  rewrite mul_spec. apply SF.SFmul_posfin_r; [|reflexivity].
  rewrite mul_spec. apply SF.SFmul_posfin_r; [|reflexivity].
  rewrite add_spec. apply SF.SFadd_ge0_nonneg; [|reflexivity].
  rewrite mul_spec. apply SF.SFmul_ge0_posfin; [|reflexivity].
  rewrite mul_spec. now apply SF.SFmul_posfin_l_ge0.
Qed.

Lemma saver_step p p' :
  saver p ->
  Person.step Policy.default [] Environment.basic_need p = Ok p' ->
  saver p' /\ (Person.saving p <=? Person.saving p') = true.
Proof.
  intros (Hfl & Hfin & Hs) Hstep.
  pose proof (step_frame _ _ _ _ _ Hstep) as (_ & _ & Hwage & _ & Hh0 & _).
  assert (Hsave : Person.saving p' =
            Person.saving p + disposable_income Policy.default p' * 0.2).
  { revert Hstep. unfold Person.step, Py.div.
    destruct (Person.denominator p =? 0); cbn [Py.bind]; [discriminate|].
    intros [= <-]. reflexivity. }
  assert (Hy : sf_nonneg
                 (Prim2SF (disposable_income Policy.default p' * 0.2)) = true).
  { apply saved_part_nonneg; [|assumption].
    rewrite Hwage. now apply posfin_of_floored. }
  unfold saver, wage_floored. rewrite Hwage, Hsave. repeat split; auto.
  - apply nonneg_leb. rewrite add_spec.
    apply SF.SFadd_ge0_nonneg; [now apply F64.ge0_leb | assumption].
  - apply add_ge_l; [|now apply nonneg_leb].
    rewrite ltb_spec. apply F64.ge0_leb in Hs.
    destruct (Prim2SF (Person.saving p)) as [[]|[]| |[] ? ?];
      try discriminate; reflexivity.
Qed.

Lemma new_person_saver {G : Type} {RS : RandomState G} :
  (forall g : G, (fst (normal 1500 500 g) <? infinity) = true) ->
  forall pid hid (g : G), saver (fst (Environment.new_person pid hid g)).
Proof.
  intros Hfin pid hid g. unfold Environment.new_person.
  destruct (randint 20 60 g) as [a g1].
  specialize (Hfin g1).
  destruct (normal 1500 500 g1) as [w g2].
  cbn [fst] in *. unfold saver, wage_floored.
  cbn [Person.hourly_wage Person.saving].
  destruct (w <? 600) eqn:E; repeat split; try reflexivity; try assumption.
  apply F64.ltb_false_leb; [|reflexivity|assumption].
  destruct (is_nan w) eqn:En; [|reflexivity].
  apply F64.Prim2SF_nan_iff in En. rewrite ltb_spec, En in Hfin. discriminate.
Qed.

Lemma saver_safe p : saver p -> wage_safe p.
Proof. intros (H & _). now right. Qed.

End Savers.

(** X12.  Savings only grow in a run.  When the wage sampler returns
    finite numbers, then in every environment a run passes through every
    person's saving is at least 0, and the step that follows leaves the
    person of the same id with a saving that is not smaller. *)
Theorem savings_never_shrink {G : Type} {RS : RandomState G}
    (env env' : Environment.t) (pid : Z) (p p' : Person.t) :
  (forall g : G, (fst (normal 1500 500 g) <? infinity)%float = true) ->
  reachable env ->
  Environment.step env = Ok env' ->
  In (pid, p) (Environment.persons env) ->
  In (pid, p') (Environment.persons env') ->
  (0 <=? Person.saving p)%float = true /\
  (Person.saving p <=? Person.saving p')%float = true.
Proof.
  intros Hfin Hr Hstep Hin Hin'.
  destruct (reachable_inv saver (fun p p' H E => proj1 (saver_step p p' H E))
              (new_person_saver Hfin) env Hr)
    as (n & c & Hpol & Hkeys & _ & HQ & _).
  revert Hstep Hin'. unfold Environment.step.
  intros (persons' & Hps & H)%bind_Ok_inv.
  apply bind_Ok_inv in H as (households' & _ & [= <-]).
  cbn [Environment.persons]. intros Hin'.
  destruct (update_values_In _ _ _ _ _ Hps Hin') as (p0 & Hin0 & Hp0).
  assert (p0 = p) as ->.
  { assert (Hnd : NoDup (Py.keys (Environment.persons env)))
      by (rewrite Hkeys; apply NoDup_ids).
    pose proof (In_get_NoDup _ _ _ Hnd Hin) as E1.
    pose proof (In_get_NoDup _ _ _ Hnd Hin0) as E2. congruence. }
  assert (Hs : saver p).
  { rewrite Forall_forall in HQ. apply HQ.
    change p with (snd (pid, p)). now apply in_map. }
  rewrite Hpol in Hp0. split.
  - apply Hs.
  - exact (proj2 (saver_step p p' Hs Hp0)).
Qed.

Lemma Cycle_normal_finite (g : nat) :
  (fst (@normal nat Cycle.rs 1500 500 g) <? infinity)%float = true.
Proof.
  cbn [normal Cycle.rs Cycle.normal fst].
  pose proof (Nat.mod_upper_bound g 8 ltac:(discriminate)) as Hlt.
  generalize dependent (g mod 8)%nat. intros k Hlt.
  do 8 (destruct k as [|k]; [reflexivity|]). lia.
Qed.

Lemma savings_never_shrink_witness :
  exists env',
    Environment.step (fst (@Environment.init nat Cycle.rs 1 2 0%nat)) = Ok env'
    /\ In (1%Z, Person.mk 1 22 1500 40 0 0 5)
         (Environment.persons (fst (@Environment.init nat Cycle.rs 1 2 0%nat)))
    /\ In (1%Z, Person.mk 1 22 1500 30.499999999583334 45279.999999599997 0
                  7.8299999999749996)
         (Environment.persons env')
    /\ (0 <=? 45279.999999599997)%float = true.
Proof.
  eexists. split; [vm_compute; reflexivity|].
  assert (H1 : In (1%Z, Person.mk 1 22 1500 40 0 0 5)
                 (Environment.persons
                    (fst (@Environment.init nat Cycle.rs 1 2 0%nat))))
    by (vm_compute; right; left; reflexivity).
  split; [exact H1|].
  match goal with |- In ?x ?l /\ _ =>
    assert (H2 : In x l) by (vm_compute; right; left; reflexivity)
  end.
  split; [exact H2|].
  refine (proj2 (@savings_never_shrink nat Cycle.rs
                   (fst (@Environment.init nat Cycle.rs 1 2 0%nat)) _ 1%Z _ _
                   Cycle_normal_finite _ _ H1 H2)).
  - exists 1%Z, 2%Z, 0%nat. constructor.
  - vm_compute. reflexivity.
Defined.
